(** * Block device discovery (packages [block] and [blockdevice])

    A shallow embedding of the Go sources: device construction from sysfs
    ([NewDevice], [NewDisk]), type discovery ([discoverDeviceType]), bulk
    construction ([NewDevicesFromPaths], [ListDevices]), the
    [sort.Interface] methods of [DiskSlice], and the parsing of the output
    of blkid ([GetAttributes]).

    Go strings are byte strings ([string]); [uint64] is a [Z] reduced
    modulo [2^64] wherever the source computes on it; a Go function that
    returns [(T, error)] returns a pair whose second component is
    [option error] ([None] is the nil error); a pointer result is an
    [option]; a run-time panic is the [Panics] outcome. *)

From Stdlib Require Import ZArith String Ascii.
From stdpp Require Import base option list sorting strings.

Local Open Scope Z_scope.
Local Open Scope nat_scope.

(** ** Outcomes: normal return or run-time panic *)

Inductive outcome (A : Type) : Type :=
| Returns (a : A)
| Panics (msg : string).
Arguments Returns {A} a.
Arguments Panics {A} msg.

#[export] Instance outcome_ret : MRet outcome := fun A a => Returns a.
#[export] Instance outcome_bind : MBind outcome := fun A B f m =>
  match m with
  | Returns a => f a
  | Panics msg => Panics msg
  end.

Definition LF : ascii := ascii_of_nat 10.
Definition slash : ascii := "/"%char.
Definition equals : ascii := "="%char.

(** ** Package strings (byte separators and cut sets, as the callers use) *)

Module gostrings.

(** [strings.IndexByte]. *)
Fixpoint IndexByte (s : string) (c : ascii) : option nat :=
  match s with
  | EmptyString => None
  | String a s' =>
      if Ascii.eqb a c then Some 0 else S <$> IndexByte s' c
  end.

(** [strings.LastIndexByte]. *)
Fixpoint LastIndexByte (s : string) (c : ascii) : option nat :=
  match s with
  | EmptyString => None
  | String a s' =>
      match LastIndexByte s' c with
      | Some i => Some (S i)
      | None => if Ascii.eqb a c then Some 0 else None
      end
  end.

(** [s[i:]] for [i <= len(s)]. *)
Fixpoint from (i : nat) (s : string) : string :=
  match i, s with
  | 0, _ => s
  | S i', String _ s' => from i' s'
  | S _, EmptyString => EmptyString
  end.

(** [s[:i]] for [i <= len(s)]. *)
Fixpoint upto (i : nat) (s : string) : string :=
  match i, s with
  | 0, _ => EmptyString
  | S i', String a s' => String a (upto i' s')
  | S _, EmptyString => EmptyString
  end.

(** [strings.Split(s, sep)] for a one-byte separator. *)
Fixpoint Split (s : string) (sep : ascii) : list string :=
  match s with
  | EmptyString => [EmptyString]
  | String a s' =>
      if Ascii.eqb a sep then EmptyString :: Split s' sep
      else match Split s' sep with
           | h :: t => String a h :: t
           | [] => [String a EmptyString]
           end
  end.

(** [strings.SplitN(s, sep, n)] for a one-byte separator and [n >= 0]:
    at most [n] pieces, the last one the unsplit remainder. *)
Fixpoint SplitN (s : string) (sep : ascii) (n : nat) : list string :=
  match n with
  | 0 => []
  | 1 => [s]
  | S n' =>
      match IndexByte s sep with
      | None => [s]
      | Some i => upto i s :: SplitN (from (S i) s) sep n'
      end
  end.

(** [strings.TrimLeft] and [strings.TrimRight] for a one-byte cut set. *)
Fixpoint TrimLeft (s : string) (c : ascii) : string :=
  match s with
  | EmptyString => EmptyString
  | String a s' => if Ascii.eqb a c then TrimLeft s' c else s
  end.

Fixpoint TrimRight (s : string) (c : ascii) : string :=
  match s with
  | EmptyString => EmptyString
  | String a s' =>
      match TrimRight s' c with
      | EmptyString => if Ascii.eqb a c then EmptyString else String a EmptyString
      | t => String a t
      end
  end.

(** [strings.Trim(s, cutset)] for a one-byte cut set. *)
Definition Trim (s : string) (c : ascii) : string := TrimRight (TrimLeft s c) c.

(** [strings.Join]. *)
Fixpoint Join (elems : list string) (sep : string) : string :=
  match elems with
  | [] => EmptyString
  | [e] => e
  | e :: rest => e +:+ sep +:+ Join rest sep
  end.

End gostrings.

(** ** Package path *)

Module gopath.

(** [path.Base]: the last element of the path, trailing slashes removed
    first; [.] for the empty path and [/] for a path of slashes only. *)
Definition Base (path : string) : string :=
  if String.eqb path EmptyString then "."%string
  else
    let path := gostrings.TrimRight path slash in
    let path :=
      match gostrings.LastIndexByte path slash with
      | Some i => gostrings.from (S i) path
      | None => path
      end in
    if String.eqb path EmptyString then "/"%string else path.

(** One element of the path handed to [Clean]: the stack holds the
    elements kept so far, innermost first. *)
Definition cleanStep (rooted : bool) (stack : list string) (elem : string)
  : list string :=
  if String.eqb elem EmptyString || String.eqb elem "." then stack
  else if String.eqb elem ".." then
    match stack with
    | top :: rest => if String.eqb top ".." then elem :: stack else rest
    | [] => if rooted then [] else [elem]
    end
  else elem :: stack.

(** [path.Clean], by its four documented rules: multiple slashes become
    one, [.] elements go, an inner [..] goes with the element before it,
    [..] at the start of a rooted path goes. *)
Definition Clean (path : string) : string :=
  if String.eqb path EmptyString then "."%string
  else
    let rooted := String.prefix "/" path in
    let kept := rev (fold_left (cleanStep rooted) (gostrings.Split path slash) []) in
    let out := gostrings.Join kept "/" in
    if rooted then "/" +:+ out
    else if String.eqb out EmptyString then "."%string else out.

(** [path.Join]: empty elements are ignored, the rest joined by slashes
    and cleaned. *)
Definition Join (elem : list string) : string :=
  match List.filter (fun e => negb (String.eqb e EmptyString)) elem with
  | [] => EmptyString
  | parts => Clean (gostrings.Join parts "/")
  end.

End gopath.

(** ** Package os: error numbers, path errors, and the file system as the
    program observes it *)

Module goos.

Inductive Errno := ENOENT | EACCES | EIO | ENOTDIR | EISDIR | ELOOP | EINVAL.

Definition Errno_Error (e : Errno) : string :=
  match e with
  | ENOENT => "no such file or directory"
  | EACCES => "permission denied"
  | EIO => "input/output error"
  | ENOTDIR => "not a directory"
  | EISDIR => "is a directory"
  | ELOOP => "too many levels of symbolic links"
  | EINVAL => "invalid argument"
  end.

Definition Errno_eqb (a b : Errno) : bool :=
  match a, b with
  | ENOENT, ENOENT | EACCES, EACCES | EIO, EIO | ENOTDIR, ENOTDIR
  | EISDIR, EISDIR | ELOOP, ELOOP | EINVAL, EINVAL => true
  | _, _ => false
  end.

(** [*os.PathError]. *)
Record PathError := mkPathError { Op : string; Path : string; Err : Errno }.

Definition PathError_Error (e : PathError) : string :=
  Op e +:+ " " +:+ Path e +:+ ": " +:+ Errno_Error (Err e).

(** [os.IsNotExist] on what [os.Stat] returns: false for the nil error. *)
Definition IsNotExist (err : option PathError) : bool :=
  match err with
  | Some e => Errno_eqb (Err e) ENOENT
  | None => false
  end.

(** What one run of the program observes of the file system: the error
    of [os.Stat] and [os.Open] on a path, the content and error of
    [ioutil.ReadFile], the names and error of [Readdirnames]. *)
Record FS := mkFS {
  Stat : string -> option PathError;
  ReadFile : string -> string * option PathError;
  Open : string -> option PathError;
  Readdirnames : string -> list string * option PathError
}.

End goos.

(** ** Package strconv *)

Module strconv.

Inductive convErr := ErrSyntax | ErrRange.

(** [*strconv.NumError]. *)
Record NumError := mkNumError { Func : string; Num : string; Err : convErr }.

Definition maxUint64 : Z := 2 ^ 64 - 1.

(** The cutoff of base 10: the smallest number whose tenfold exceeds
    [maxUint64]. *)
Definition cutoff : Z := maxUint64 / 10 + 1.

Definition isDigit (c : ascii) : bool :=
  (48 <=? nat_of_ascii c) && (nat_of_ascii c <=? 57).

(** The loop of [ParseUint] over the bytes of the string, in base 10 and
    64 bits; letters are digits of a larger base and so syntax errors,
    like every other byte. *)
Fixpoint parseLoop (s0 : string) (s : string) (n : Z) : Z * option NumError :=
  match s with
  | EmptyString => (n, None)
  | String c s' =>
      if isDigit c then
        let d := (Z.of_nat (nat_of_ascii c) - 48)%Z in
        if (cutoff <=? n)%Z
        then (maxUint64, Some (mkNumError "ParseUint" s0 ErrRange))
        else
          let n10 := ((n * 10) mod 2 ^ 64)%Z in
          let n1 := ((n10 + d) mod 2 ^ 64)%Z in
          if (n1 <? n10)%Z || (maxUint64 <? n1)%Z
          then (maxUint64, Some (mkNumError "ParseUint" s0 ErrRange))
          else parseLoop s0 s' n1
      else (0%Z, Some (mkNumError "ParseUint" s0 ErrSyntax))
  end.

(** [strconv.ParseUint(s, 10, 64)]. *)
Definition ParseUint (s : string) : Z * option NumError :=
  if String.eqb s EmptyString
  then (0%Z, Some (mkNumError "ParseUint" s ErrSyntax))
  else parseLoop s s 0%Z.

End strconv.

(** ** Errors: the values of the [error] interface that the packages build,
    and package github.com/pkg/errors *)

Module pkgerrors.

Inductive error :=
| EPath (e : goos.PathError)
| ENum (e : strconv.NumError)
| EExec (msg : string)
| fundamental (msg : string)
| withMessage (cause : error) (msg : string).

(** [errors.Errorf], the format already applied. *)
Definition Errorf (msg : string) : error := fundamental msg.

(** [errors.Wrap] and [errors.Wrapf] of a non-nil error (the recorded
    stack is left out). *)
Definition Wrap (err : error) (msg : string) : error := withMessage err msg.

(** [errors.Cause]. *)
Fixpoint Cause (err : error) : error :=
  match err with
  | withMessage cause _ => Cause cause
  | _ => err
  end.

End pkgerrors.

Import pkgerrors.

(** ** Package block: devices with a type *)

Module block.

Definition sysfsBlockRoot : string := "/sys/block".
Definition sectorSizeBytes : Z := 512.

Inductive Type' := TypeUnknown | TypeDisk | TypeRAID | TypeDeviceMapper.

(** Device represents a blockdevice. *)
Record Device := mkDevice { Name : string; Size : Z; Typ : Type' }.

(** exists returns whether the given path exists. *)
Definition exists_ (fs : goos.FS) (path : string) : bool * option error :=
  match goos.Stat fs path with
  | None => (true, None)
  | Some e =>
      if goos.IsNotExist (Some e) then (false, None)
      else (true, Some (EPath e))
  end.

Definition discoverDeviceType (fs : goos.FS) (sysfsPath : string)
  : Type' * option error :=
  let failed :=
    Errorf ("failed to discover device type for " +:+ sysfsPath) in
  let mdPath := gopath.Join [sysfsPath; "md"%string] in
  match exists_ fs mdPath with
  | (_, Some _) => (TypeUnknown, Some failed)
  | (true, None) => (TypeRAID, None)
  | (false, None) =>
      let dmPath := gopath.Join [sysfsPath; "dm"%string] in
      match exists_ fs dmPath with
      | (_, Some _) => (TypeUnknown, Some failed)
      | (true, None) => (TypeDeviceMapper, None)
      | (false, None) =>
          let devicePath := gopath.Join [sysfsPath; "device"%string] in
          match exists_ fs devicePath with
          | (_, Some _) => (TypeUnknown, Some failed)
          | (true, None) => (TypeDisk, None)
          | (false, None) => (TypeUnknown, None)
          end
      end
  end.

(** NewDevice creates a Device type; the device properties are
    discovered from sysfs. *)
Definition NewDevice (fs : goos.FS) (devicePath : string)
  : option Device * option error :=
  let name := gopath.Base devicePath in
  let sysfsPath := gopath.Join [sysfsBlockRoot; name] in
  if goos.IsNotExist (goos.Stat fs sysfsPath)
  then (None, Some (Errorf ("device " +:+ sysfsPath +:+ " does not exist")))
  else
    let sizeFilePath := gopath.Join [sysfsPath; "size"%string] in
    match goos.ReadFile fs sizeFilePath with
    | (_, Some err) =>
        (None, Some (Wrap (EPath err)
           ("failed to read " +:+ goos.PathError_Error err +:+ " for size")))
    | (sizeContent, None) =>
        let sizeString := gostrings.Trim sizeContent LF in
        match strconv.ParseUint sizeString with
        | (_, Some err) =>
            (None, Some (Wrap (ENum err) "failed to parse device size"))
        | (size, None) =>
            let size := ((size * sectorSizeBytes) mod 2 ^ 64)%Z in
            match discoverDeviceType fs sysfsPath with
            | (_, Some err) =>
                (None, Some (Wrap err "failed to parse device size"))
            | (typ, None) => (Some (mkDevice name size typ), None)
            end
        end
    end.

(** The loop of [NewDevicesFromPaths]; [*d] on a nil pointer panics. *)
Fixpoint NewDevicesFromPaths_loop (fs : goos.FS) (paths : list string)
    (ds : list Device) : outcome (option (list Device) * option error) :=
  match paths with
  | [] => Returns (Some ds, None)
  | p :: rest =>
      match NewDevice fs p with
      | (_, Some err) => Returns (None, Some (Wrap err "failed to create disk"))
      | (Some d, None) => NewDevicesFromPaths_loop fs rest (ds ++ [d])
      | (None, None) => Panics "invalid memory address or nil pointer dereference"
      end
  end.

(** NewDevicesFromPaths creates Device types from a given slice of
    paths. *)
Definition NewDevicesFromPaths (fs : goos.FS) (paths : list string)
  : outcome (option (list Device) * option error) :=
  NewDevicesFromPaths_loop fs paths [].

(** ListDevices returns block devices found in the system. *)
Definition ListDevices (fs : goos.FS)
  : outcome (option (list Device) * option error) :=
  match goos.Open fs sysfsBlockRoot with
  | Some err =>
      Returns (None, Some (Wrap (EPath err) ("failed to open " +:+ sysfsBlockRoot)))
  | None =>
      match goos.Readdirnames fs sysfsBlockRoot with
      | (_, Some err) =>
          Returns (None, Some (Wrap (EPath err)
             ("failed to read directory " +:+ sysfsBlockRoot)))
      | (diskNames, None) => NewDevicesFromPaths fs diskNames
      end
  end.

End block.

(** ** Package blockdevice: disks, disk slices, attributes *)

Module blockdevice.

Definition sysfsBlockRoot : string := "/sys/block".
Definition sectorSizeBytes : Z := 512.

(** Disk represents a disk device. *)
Record Disk := mkDisk { Name : string; Size : Z }.

(** NewDisk creates a Disk type; the disk properties are discovered from
    sysfs. *)
Definition NewDisk (fs : goos.FS) (diskPath : string)
  : option Disk * option error :=
  let name := gopath.Base diskPath in
  let sysfsName := gopath.Join [sysfsBlockRoot; name] in
  if goos.IsNotExist (goos.Stat fs sysfsName)
  then (None, Some (Errorf ("device " +:+ sysfsName +:+ " does not exist")))
  else
    let sizeFilePath := gopath.Join [sysfsName; "size"%string] in
    match goos.ReadFile fs sizeFilePath with
    | (_, Some err) =>
        (None, Some (Wrap (EPath err)
           ("failed to read " +:+ goos.PathError_Error err +:+ " for size")))
    | (sizeContent, None) =>
        let sizeString := gostrings.Trim sizeContent LF in
        match strconv.ParseUint sizeString with
        | (_, Some err) =>
            (None, Some (Wrap (ENum err) "failed to parse device size"))
        | (size, None) =>
            let size := ((size * sectorSizeBytes) mod 2 ^ 64)%Z in
            (Some (mkDisk name size), None)
        end
    end.

(** The interface [BlockDevicer]. *)
Class BlockDevicer (T : Type) := DeviceName : T -> string.

#[export] Instance Disk_BlockDevicer : BlockDevicer Disk :=
  fun d => "/dev/" +:+ Name d.

(** DiskSlice represents a collection of disks. *)
Definition DiskSlice := list Disk.

Fixpoint NewDiskSliceFromPaths_loop (fs : goos.FS) (paths : list string)
    (ds : DiskSlice) : outcome (option DiskSlice * option error) :=
  match paths with
  | [] => Returns (Some ds, None)
  | p :: rest =>
      match NewDisk fs p with
      | (_, Some err) => Returns (None, Some (Wrap err "failed to create disk"))
      | (Some d, None) => NewDiskSliceFromPaths_loop fs rest (ds ++ [d])
      | (None, None) => Panics "invalid memory address or nil pointer dereference"
      end
  end.

(** NewDiskSliceFromPaths creates DiskSlice from a given slice of
    paths. *)
Definition NewDiskSliceFromPaths (fs : goos.FS) (paths : list string)
  : outcome (option DiskSlice * option error) :=
  NewDiskSliceFromPaths_loop fs paths [].

(** NewDiskSlice creates DiskSlice from all disks in the system. *)
Definition NewDiskSlice (fs : goos.FS)
  : outcome (option DiskSlice * option error) :=
  match goos.Open fs sysfsBlockRoot with
  | Some err =>
      Returns (None, Some (Wrap (EPath err) ("failed to open " +:+ sysfsBlockRoot)))
  | None =>
      match goos.Readdirnames fs sysfsBlockRoot with
      | (_, Some err) =>
          Returns (None, Some (Wrap (EPath err)
             ("failed to read directory " +:+ sysfsBlockRoot)))
      | (diskNames, None) => NewDiskSliceFromPaths fs diskNames
      end
  end.

(** [sort.Interface] on a disk slice. The indices are of type [int]: an
    index expression [ds[i]] panics when [i] is negative or not below the
    length. *)
Definition Len (ds : DiskSlice) : nat := length ds.

(** The index expression [ds[i]]; [None] is the panic. *)
Definition index (ds : DiskSlice) (i : Z) : option Disk :=
  if (i <? 0)%Z then None else ds !! Z.to_nat i.

Definition Less (ds : DiskSlice) (i j : Z) : outcome bool :=
  match index ds i, index ds j with
  | Some a, Some b => Returns (Size a <? Size b)%Z
  | _, _ => Panics "index out of range"
  end.

Definition Swap (ds : DiskSlice) (i j : Z) : outcome DiskSlice :=
  match index ds j, index ds i with
  | Some b, Some a => Returns (<[Z.to_nat j := a]> (<[Z.to_nat i := b]> ds))
  | _, _ => Panics "index out of range"
  end.

Definition StringSlice (ds : DiskSlice) : list string :=
  map DeviceName ds.

Definition String' (ds : DiskSlice) : string :=
  gostrings.Join (StringSlice ds) " ".

(** Attributes holds device attributes as reported by blkid. *)
Record Attributes := mkAttributes { UUID : string; Type' : string; Label : string }.

Definition attributeUUIDKey : string := "UUID".
Definition attributeTypeKey : string := "TYPE".
Definition attributeLabelKey : string := "LABEL".

(** The zero value of [Attributes] ([var attrs Attributes]). *)
Definition zeroAttributes : Attributes :=
  mkAttributes EmptyString EmptyString EmptyString.

(** The message of the panic of an index expression [kv[1]] on a slice of
    length 1. *)
Definition outOfRange : string := "index out of range [1] with length 1".

(** The body of the loop over the lines, for one line: [kv[0]] and
    [kv[1]] are indexed without a check of [len(kv)]. *)
Definition parseLine (attrs : Attributes) (line : string) : outcome Attributes :=
  if String.eqb line EmptyString then Returns attrs
  else
    let kv := gostrings.SplitN line equals 2 in
    match kv !! 0, kv !! 1 with
    | Some key, Some value =>
        if String.eqb key attributeUUIDKey
        then Returns (mkAttributes value (Type' attrs) (Label attrs))
        else if String.eqb key attributeLabelKey
        then Returns (mkAttributes (UUID attrs) (Type' attrs) value)
        else if String.eqb key attributeTypeKey
        then Returns (mkAttributes (UUID attrs) value (Label attrs))
        else Returns attrs
    | _, _ => Panics "index out of range [1] with length 1"
    end.

Fixpoint parseLines (lines : list string) (attrs : Attributes)
  : outcome Attributes :=
  match lines with
  | [] => Returns attrs
  | line :: rest => attrs' ← parseLine attrs line; parseLines rest attrs'
  end.

(** GetAttributes returns block device attributes by invoking blkid and
    parsing its output; [run] is the execution of a command line, giving
    its standard output and its error. *)
Definition GetAttributes {T} `{BlockDevicer T}
    (run : list string -> string * option error) (bd : T)
  : outcome (option Attributes * option error) :=
  match run ["blkid"; "-o"; "export"; DeviceName bd]%string with
  | (_, Some err) => Returns (None, Some (Wrap err "failed to exec blkid"))
  | (output, None) =>
      let lines := gostrings.Split output LF in
      attrs ← parseLines lines zeroAttributes;
      Returns (Some attrs, None)
  end.

End blockdevice.

(** ** The error kinds of the specification *)

Module taxonomy.

Inductive ErrorKind := NotFoundError | IOError | ParseError | ExternalToolError.

Definition hasSuffix (s suffix : string) : bool :=
  let n := String.length s in
  let m := String.length suffix in
  (m <=? n) && String.eqb (gostrings.from (n - m) s) suffix.

(** The packages declare no error types of their own: the kind of an
    error is read off the value they build. The innermost error
    ([errors.Cause]) decides: a path error of package os is an I/O error,
    a number error of strconv a parse error, a failed command an external
    tool error, and the message the packages create for a missing device
    is the not-found error. Any other message created without a cause
    has no kind. *)
Definition kindOf (err : error) : option ErrorKind :=
  match Cause err with
  | EPath _ => Some IOError
  | ENum _ => Some ParseError
  | EExec _ => Some ExternalToolError
  | fundamental msg =>
      if String.prefix "device " msg && hasSuffix msg " does not exist"
      then Some NotFoundError
      else None
  | withMessage _ _ => None
  end.

End taxonomy.

(** ** The classification rules as the specification words them *)

Module rules.

(** Ordered, first match wins: the RAID marker, else the device-mapper
    marker, else the physical-backing marker, else unknown. *)
Definition classify (md dm device : bool) : block.Type' :=
  if md then block.TypeRAID
  else if dm then block.TypeDeviceMapper
  else if device then block.TypeDisk
  else block.TypeUnknown.

(** What a marker check can find. *)
Inductive marker := Present | Absent | Indeterminate (e : goos.PathError).

Definition markerOf (fs : goos.FS) (path : string) : marker :=
  match goos.Stat fs path with
  | None => Present
  | Some e => if goos.IsNotExist (Some e) then Absent else Indeterminate e
  end.

Definition isPresent (m : marker) : bool :=
  match m with Present => true | _ => false end.

Definition mdMarker (fs : goos.FS) (entry : string) : marker :=
  markerOf fs (gopath.Join [entry; "md"%string]).
Definition dmMarker (fs : goos.FS) (entry : string) : marker :=
  markerOf fs (gopath.Join [entry; "dm"%string]).
Definition deviceMarker (fs : goos.FS) (entry : string) : marker :=
  markerOf fs (gopath.Join [entry; "device"%string]).

(** The metadata entry of a name, and its size marker. *)
Definition entryOf (name : string) : string :=
  gopath.Join [block.sysfsBlockRoot; name].
Definition sizeMarkerOf (name : string) : string :=
  gopath.Join [entryOf name; "size"%string].

(** The markers that discovery consults are all determinate: each is
    present or absent, up to the first one present. *)
Definition consultedDeterminate (fs : goos.FS) (entry : string) : Prop :=
  match mdMarker fs entry with
  | Present => True
  | Indeterminate _ => False
  | Absent =>
      match dmMarker fs entry with
      | Present => True
      | Indeterminate _ => False
      | Absent =>
          match deviceMarker fs entry with
          | Indeterminate _ => False
          | _ => True
          end
      end
  end.

(** A marker that is consulted and whose existence cannot be determined. *)
Definition consultedIndeterminate (fs : goos.FS) (entry : string) : Prop :=
  (∃ e, mdMarker fs entry = Indeterminate e)
  ∨ (mdMarker fs entry = Absent ∧ ∃ e, dmMarker fs entry = Indeterminate e)
  ∨ (mdMarker fs entry = Absent ∧ dmMarker fs entry = Absent
     ∧ ∃ e, deviceMarker fs entry = Indeterminate e).

(** A bare device name: not empty and without a slash. *)
Definition bareName (name : string) : Prop :=
  name ≠ EmptyString ∧ gostrings.IndexByte name slash = None.

End rules.

(** ** The size ordering view *)

Module ordering.
Import blockdevice.

(** Modelled from the spec: the ascending-by-size view of a collection.
    The sources declare the three methods of [sort.Interface] on
    [DiskSlice] and no call of a sort routine; the view is the stable
    sort the specification asks for, driven through [Len], [Less] and
    [Swap] only: the insertion sort of package sort, which moves the
    element at [j] down while it is less than the one before it. *)
Fixpoint sinkDown (ds : DiskSlice) (j : nat) : outcome DiskSlice :=
  match j with
  | 0 => Returns ds
  | S j' =>
      b ← Less ds (Z.of_nat j) (Z.of_nat j');
      if b : bool
      then ds' ← Swap ds (Z.of_nat j) (Z.of_nat j'); sinkDown ds' j'
      else Returns ds
  end.

(** Modelled from the spec: the outer loop of the stable sort, which
    sinks the elements at [i], [i + 1], ... for [k] rounds. *)
Fixpoint insertionLoop (k i : nat) (ds : DiskSlice) : outcome DiskSlice :=
  match k with
  | 0 => Returns ds
  | S k' => ds' ← sinkDown ds i; insertionLoop k' (S i) ds'
  end.

(** Modelled from the spec: the size ordering view, [insertionSort(ds, 0,
    ds.Len())] of package sort (what [sort.Stable] runs on a slice of up
    to 20 elements). *)
Definition sortBySize (ds : DiskSlice) : outcome DiskSlice :=
  insertionLoop (Len ds - 1) 1 ds.

(** Insertion of [x] into a list read from its end: the functional
    counterpart of [sinkDown]. *)
Fixpoint sinkInto (x : Disk) (before : list Disk) : list Disk :=
  match before with
  | [] => [x]
  | y :: before' =>
      if (Size x <? Size y)%Z then y :: sinkInto x before' else x :: y :: before'
  end.

(** Insertion of [x] after the elements of [sorted] that are not greater
    than it, from the end. *)
Definition insertLast (sorted : list Disk) (x : Disk) : list Disk :=
  reverse (sinkInto x (reverse sorted)).

(** The list that [sortBySize] computes, as a fold. *)
Definition insertAll (sorted rest : list Disk) : list Disk :=
  foldl insertLast sorted rest.

(** The disks of one size, and the ascending order of sizes. *)
Definition ofSize (s : Z) (d : Disk) : Prop := Size d = s.

#[export] Instance ofSize_dec s d : Decision (ofSize s d) := Z.eq_dec (Size d) s.

Definition bySize (a b : Disk) : Prop := (Size a <= Size b)%Z.

End ordering.

(** ** The lines of the tool output *)

Module lines.
Import blockdevice.

Definition keyOf (line : string) : string :=
  match gostrings.IndexByte line equals with
  | Some i => gostrings.upto i line
  | None => line
  end.

Definition valueOf (line : string) : string :=
  match gostrings.IndexByte line equals with
  | Some i => gostrings.from (S i) line
  | None => EmptyString
  end.

Definition hasSeparator (line : string) : bool :=
  match gostrings.IndexByte line equals with Some _ => true | None => false end.

(** A line the parser accepts: empty, or with a separator. *)
Definition wellFormedLine (line : string) : bool :=
  String.eqb line EmptyString || hasSeparator line.

Definition wellFormed (ls : list string) : bool := forallb wellFormedLine ls.

(** A line that carries a key: not empty, and the text before its first
    separator is the key. *)
Definition hasKey (key line : string) : bool :=
  negb (String.eqb line EmptyString) && String.eqb (keyOf line) key.

(** The value reported for a key: that of the last line carrying it. *)
Fixpoint reported (key : string) (ls : list string) : option string :=
  match ls with
  | [] => None
  | line :: rest =>
      match reported key rest with
      | Some v => Some v
      | None => if hasKey key line then Some (valueOf line) else None
      end
  end.

Definition appears (key : string) (ls : list string) : bool :=
  existsb (hasKey key) ls.

Definition recognized (key : string) : bool :=
  String.eqb key attributeUUIDKey || String.eqb key attributeTypeKey
  || String.eqb key attributeLabelKey.

(** The field a recognized key populates. *)
Definition field (key : string) (attrs : Attributes) : string :=
  if String.eqb key attributeUUIDKey then UUID attrs
  else if String.eqb key attributeLabelKey then Label attrs
  else if String.eqb key attributeTypeKey then Type' attrs
  else EmptyString.

(** The record after a line the parser accepts: the field of the key the
    line carries takes the value of the line, the others stay. *)
Definition assign (attrs : Attributes) (line : string) : Attributes :=
  {| UUID := if hasKey attributeUUIDKey line then valueOf line else UUID attrs;
     Type' := if hasKey attributeTypeKey line then valueOf line else Type' attrs;
     Label := if hasKey attributeLabelKey line then valueOf line else Label attrs |}.

(** The record after all lines: each field holds the value reported for
    its key, and what it held before when no line carries the key. *)
Definition collected (attrs : Attributes) (ls : list string) : Attributes :=
  {| UUID := default (UUID attrs) (reported attributeUUIDKey ls);
     Type' := default (Type' attrs) (reported attributeTypeKey ls);
     Label := default (Label attrs) (reported attributeLabelKey ls) |}.

(** The lines whose key is recognized. *)
Definition recognizedLines (ls : list string) : list string :=
  List.filter (fun l => recognized (keyOf l)) ls.

(** The command line of the tool, answered with a fixed output. *)
Definition answers (output : string) : list string -> string * option error :=
  fun _ => (output, None).

End lines.

(** ** A file system given by its entries, for examples *)

Module fixture.
Import goos.

Inductive node := Dir | File (content : string).

Fixpoint assoc {A} (l : list (string * A)) (k : string) : option A :=
  match l with
  | [] => None
  | (k', v) :: l' => if String.eqb k' k then Some v else assoc l' k
  end.

Definition childName (dir path : string) : option string :=
  let pre := dir +:+ "/" in
  if String.prefix pre path then
    let rest := gostrings.from (String.length pre) path in
    match gostrings.IndexByte rest slash with
    | None => if String.eqb rest EmptyString then None else Some rest
    | Some _ => None
    end
  else None.

(** The file system with the given entries; a path listed in [faults]
    fails with its error number on every access. *)
Definition make (nodes : list (string * node)) (faults : list (string * Errno)) : FS :=
  {| Stat := fun p =>
       match assoc faults p with
       | Some e => Some (mkPathError "stat" p e)
       | None =>
           match assoc nodes p with
           | Some _ => None
           | None => Some (mkPathError "stat" p ENOENT)
           end
       end;
     ReadFile := fun p =>
       match assoc faults p with
       | Some e => (EmptyString, Some (mkPathError "open" p e))
       | None =>
           match assoc nodes p with
           | Some (File c) => (c, None)
           | Some Dir => (EmptyString, Some (mkPathError "read" p EISDIR))
           | None => (EmptyString, Some (mkPathError "open" p ENOENT))
           end
       end;
     Open := fun p =>
       match assoc faults p with
       | Some e => Some (mkPathError "open" p e)
       | None =>
           match assoc nodes p with
           | Some _ => None
           | None => Some (mkPathError "open" p ENOENT)
           end
       end;
     Readdirnames := fun p =>
       match assoc nodes p with
       | Some Dir => (omap (fun '(q, _) => childName p q) nodes, None)
       | _ => ([], Some (mkPathError "readdirent" p ENOTDIR))
       end |}.

Definition line (s : string) : string := s +:+ String LF EmptyString.

(** A plain disk of 1000 sectors, a RAID array that also shows a device
    marker, a device-mapper volume, and a loop device without markers. *)
Definition host : FS :=
  make [("/sys/block", Dir);
        ("/sys/block/sda", Dir);
        ("/sys/block/sda/size", File (line "1000"));
        ("/sys/block/sda/device", Dir);
        ("/sys/block/md0", Dir);
        ("/sys/block/md0/size", File (line "2048"));
        ("/sys/block/md0/md", Dir);
        ("/sys/block/md0/device", Dir);
        ("/sys/block/dm-1", Dir);
        ("/sys/block/dm-1/size", File (line "0"));
        ("/sys/block/dm-1/dm", Dir);
        ("/sys/block/loop0", Dir);
        ("/sys/block/loop0/size", File (line "8"))]%string [].

(** The same host while the device-mapper marker of sda cannot be
    examined. *)
Definition hostDenied : FS :=
  make [("/sys/block", Dir);
        ("/sys/block/sda", Dir);
        ("/sys/block/sda/size", File (line "1000"));
        ("/sys/block/sda/device", Dir)]%string
       [("/sys/block/sda/dm", EACCES)]%string.

(** A device that reports [2^55] sectors. *)
Definition hostHuge : FS :=
  make [("/sys/block", Dir);
        ("/sys/block/sdz", Dir);
        ("/sys/block/sdz/size", File (line "36028797018963968"));
        ("/sys/block/sdz/device", Dir)]%string [].

End fixture.


(** ** Bulk construction *)

Module registry.

(** The construction of a name succeeds with a device. *)
Definition constructs (fs : goos.FS) (p : string) (d : block.Device) : Prop :=
  block.NewDevice fs p = (Some d, None).

(** The construction of a name fails with an error. *)
Definition failsWith (fs : goos.FS) (p : string) (err : error) : Prop :=
  ∃ x, block.NewDevice fs p = (x, Some err).

Definition constructsDisk (fs : goos.FS) (p : string) (d : blockdevice.Disk) : Prop :=
  blockdevice.NewDisk fs p = (Some d, None).

Definition diskFailsWith (fs : goos.FS) (p : string) (err : error) : Prop :=
  ∃ x, blockdevice.NewDisk fs p = (x, Some err).

(** The context that bulk construction adds to the error of a name. *)
Definition inContext (err : error) : error := Wrap err "failed to create disk".

End registry.

(** ** Decimal numerals *)

Module numerals.

Definition digit (c : ascii) : Z := (Z.of_nat (nat_of_ascii c) - 48)%Z.

(** The number a string of decimal digits denotes, continuing from [n]. *)
Fixpoint decimal (s : string) (n : Z) : Z :=
  match s with
  | EmptyString => n
  | String c s' => decimal s' (n * 10 + digit c)%Z
  end.

Fixpoint allDigits (s : string) : bool :=
  match s with
  | EmptyString => true
  | String c s' => strconv.isDigit c && allDigits s'
  end.

End numerals.

(** ** Further notions used by the properties *)

Module notions.

(** A string of [n] newlines. *)
Fixpoint newlines (n : nat) : string :=
  match n with
  | 0 => EmptyString
  | S n' => String LF (newlines n')
  end.

(** A decimal numeral of 64 bits: digits only, at least one, and a value
    of at most [2^64 - 1]. *)
Definition numeral64 (s : string) : bool :=
  negb (String.eqb s EmptyString) && numerals.allDigits s
  && (numerals.decimal s 0 <=? strconv.maxUint64)%Z.

(** The disk that a device is, without its type. *)
Definition diskOf (d : block.Device) : blockdevice.Disk :=
  blockdevice.mkDisk (block.Name d) (block.Size d).

(** A string without the byte [c]. *)
Definition without (c : ascii) (s : string) : Prop :=
  gostrings.IndexByte s c = None.

Definition space : ascii := " "%char.

(** The text of a record in the export format of the tool: one KEY=VALUE
    line per field. *)
Definition exported (attrs : blockdevice.Attributes) : string :=
  (blockdevice.attributeUUIDKey +:+ String equals (blockdevice.UUID attrs)
   +:+ String LF EmptyString)
  +:+ (blockdevice.attributeTypeKey +:+ String equals (blockdevice.Type' attrs)
       +:+ String LF EmptyString)
  +:+ (blockdevice.attributeLabelKey +:+ String equals (blockdevice.Label attrs)
       +:+ String LF EmptyString).

(** The lines that are not empty. *)
Definition nonBlank (ls : list string) : list string :=
  List.filter (fun l => negb (String.eqb l EmptyString)) ls.

(** The command line that [GetAttributes] runs for a disk. *)
Definition commandLine (bd : blockdevice.Disk) : list string :=
  ["blkid"; "-o"; "export"; "/dev/" +:+ blockdevice.Name bd]%string.

(** Two positions of a slice hold disks of the same size. *)
Definition sameSize (ds : blockdevice.DiskSlice) (i j : Z) : Prop :=
  ∃ a b, blockdevice.index ds i = Some a ∧ blockdevice.index ds j = Some b
         ∧ blockdevice.Size a = blockdevice.Size b.

(** An index in the range of a slice. *)
Definition inRange (ds : blockdevice.DiskSlice) (i : Z) : Prop :=
  (0 ≤ i < Z.of_nat (blockdevice.Len ds))%Z.

End notions.

(** ** More file systems, for examples *)

Module samples.
Import goos fixture.

(** Devices whose size marker is odd: letters, missing, padded with
    newlines, signed, one more than [2^64 - 1]. *)
Definition hostOdd : FS :=
  make [("/sys/block", Dir);
        ("/sys/block/sdq", Dir);
        ("/sys/block/sdq/size", File (line "12x"));
        ("/sys/block/sdq/device", Dir);
        ("/sys/block/sdr", Dir);
        ("/sys/block/sdr/device", Dir);
        ("/sys/block/sds", Dir);
        ("/sys/block/sds/size",
         File (notions.newlines 2 +:+ "42" +:+ notions.newlines 3));
        ("/sys/block/sds/device", Dir);
        ("/sys/block/sdt", Dir);
        ("/sys/block/sdt/size", File (line "-1"));
        ("/sys/block/sdu", Dir);
        ("/sys/block/sdu/size", File (line "18446744073709551616"))]%string [].

(** A host whose root cannot be opened, one whose root cannot be listed,
    and one without devices. *)
Definition hostClosed : FS := make [] [("/sys/block", EACCES)]%string.

Definition hostUnlisted : FS := make [("/sys/block", File EmptyString)]%string [].

Definition hostEmpty : FS := make [("/sys/block", Dir)]%string [].

(** The tool fails to start. *)
Definition toolMissing : list string → string * option error :=
  fun _ => ("garbage"%string, Some (EExec "exec: blkid: executable file not found in $PATH")).

End samples.

(** * Properties *)

(** ** Strings and paths *)

Section string_facts.
Implicit Types (s t u pre : string) (c a : ascii).

Lemma append_nil s : EmptyString +:+ s = s.
Proof. reflexivity. Qed.

Lemma append_cons a s t : String a s +:+ t = String a (s +:+ t).
Proof. reflexivity. Qed.

Lemma append_empty_r s : s +:+ EmptyString = s.
Proof. induction s as [|a s IH]; rewrite ?append_cons, ?append_nil; congruence. Qed.

Lemma append_assoc s t u : (s +:+ t) +:+ u = s +:+ (t +:+ u).
Proof. induction s as [|a s IH]; rewrite ?append_cons, ?append_nil; congruence. Qed.

Lemma append_nonempty s t : t ≠ EmptyString → s +:+ t ≠ EmptyString.
Proof. destruct s; rewrite ?append_cons, ?append_nil; [done | discriminate]. Qed.

Lemma length_append s t :
  String.length (s +:+ t) = String.length s + String.length t.
Proof.
  induction s as [|a s IH]; rewrite ?append_cons, ?append_nil; simpl; congruence.
Qed.

Lemma from_append s t : gostrings.from (String.length s) (s +:+ t) = t.
Proof.
  induction s as [|a s IH]; rewrite ?append_cons, ?append_nil; simpl; done.
Qed.

Lemma upto_append s t : gostrings.upto (String.length s) (s +:+ t) = s.
Proof.
  induction s as [|a s IH]; rewrite ?append_cons, ?append_nil; simpl;
    congruence.
Qed.

Lemma prefix_append s t : String.prefix s (s +:+ t) = true.
Proof.
  induction s as [|a s IH]; rewrite ?append_cons, ?append_nil; simpl;
    [by destruct t |].
  destruct (ascii_dec a a) as [_|Hneq]; [done | by destruct Hneq].
Qed.

Lemma hasSuffix_append s t : taxonomy.hasSuffix (s +:+ t) t = true.
Proof.
  unfold taxonomy.hasSuffix. rewrite length_append.
  replace (String.length s + String.length t - String.length t)
    with (String.length s) by lia.
  rewrite from_append, String.eqb_refl, andb_true_r.
  apply Nat.leb_le. lia.
Qed.

Lemma IndexByte_none_last s c :
  gostrings.IndexByte s c = None → gostrings.LastIndexByte s c = None.
Proof.
  induction s as [|a s IH]; simpl; [done |].
  destruct (Ascii.eqb a c); [done |].
  destruct (gostrings.IndexByte s c); [done |]. intros _. by rewrite IH.
Qed.

Lemma IndexByte_append s t c :
  gostrings.IndexByte s c = None →
  gostrings.IndexByte (s +:+ String c t) c = Some (String.length s).
Proof.
  induction s as [|a s IH]; rewrite ?append_cons, ?append_nil; simpl.
  - by rewrite Ascii.eqb_refl.
  - destruct (Ascii.eqb a c); [done |].
    destruct (gostrings.IndexByte s c) eqn:E; [done |].
    intros _. by rewrite IH.
Qed.

Lemma LastIndexByte_append pre t c :
  gostrings.IndexByte t c = None →
  gostrings.LastIndexByte (pre +:+ String c t) c = Some (String.length pre).
Proof.
  intros Ht.
  induction pre as [|a pre IH]; rewrite ?append_cons, ?append_nil; simpl.
  - by rewrite (IndexByte_none_last _ _ Ht), Ascii.eqb_refl.
  - by rewrite IH.
Qed.

Lemma TrimRight_without s c :
  gostrings.IndexByte s c = None → gostrings.TrimRight s c = s.
Proof.
  induction s as [|a s IH]; simpl; [done |].
  destruct (Ascii.eqb a c); [done |].
  destruct (gostrings.IndexByte s c); [done |]. intros _.
  rewrite IH by done. by destruct s.
Qed.

Lemma TrimRight_append s t c :
  t ≠ EmptyString → gostrings.TrimRight t c = t →
  gostrings.TrimRight (s +:+ t) c = s +:+ t.
Proof.
  intros Hne Ht.
  induction s as [|a s IH]; rewrite ?append_cons, ?append_nil; simpl; [done |].
  rewrite IH. pose proof (append_nonempty s t Hne).
  by destruct (s +:+ t).
Qed.

Lemma eqb_false s t : s ≠ t → String.eqb s t = false.
Proof. by intros ?%String.eqb_neq. Qed.

(** The base of a bare name is the name itself. *)
Lemma Base_bare name : rules.bareName name → gopath.Base name = name.
Proof.
  intros [Hne Hno]. unfold gopath.Base.
  rewrite (eqb_false _ _ Hne), (TrimRight_without _ _ Hno).
  by rewrite (IndexByte_none_last _ _ Hno), (eqb_false _ _ Hne).
Qed.

(** The base of a bare name behind any prefix is the name. *)
Lemma Base_prefixed pre name :
  rules.bareName name → gopath.Base (pre +:+ "/" +:+ name) = name.
Proof.
  intros [Hne Hno]. unfold gopath.Base.
  change ("/" +:+ name) with (String slash name).
  rewrite eqb_false by (apply append_nonempty; discriminate).
  rewrite TrimRight_append; [| discriminate |].
  - rewrite (LastIndexByte_append _ _ _ Hno).
    change (String slash name) with (String slash EmptyString +:+ name).
    rewrite <- append_assoc.
    replace (S (String.length pre))
      with (String.length (pre +:+ String slash EmptyString))
      by (rewrite length_append; simpl; lia).
    by rewrite from_append, (eqb_false _ _ Hne).
  - simpl. rewrite (TrimRight_without _ _ Hno). by destruct name.
Qed.

End string_facts.

(** ** Numbers *)

Section number_facts.
Local Open Scope Z_scope.

Lemma digit_range c : strconv.isDigit c = true → 0 ≤ numerals.digit c ≤ 9.
Proof.
  unfold strconv.isDigit, numerals.digit.
  intros [H1 H2]%andb_prop. apply Nat.leb_le in H1, H2. lia.
Qed.

Lemma parseLoop_range s0 s n v :
  0 ≤ n ≤ strconv.maxUint64 →
  strconv.parseLoop s0 s n = (v, None) → 0 ≤ v ≤ strconv.maxUint64.
Proof.
  revert n. induction s as [|c s IH]; intros n Hn; cbn [strconv.parseLoop].
  - by intros [= <-].
  - destruct (strconv.isDigit c); [| done].
    destruct (strconv.cutoff <=? n); [done |].
    set (n10 := (n * 10) mod 2 ^ 64).
    set (n1 := (n10 + (Z.of_nat (nat_of_ascii c) - 48)) mod 2 ^ 64).
    destruct (n1 <? n10) eqn:E1; [done |].
    destruct (strconv.maxUint64 <? n1) eqn:E2; [done |]. cbn [orb].
    apply IH. apply Z.ltb_ge in E2.
    pose proof (Z.mod_pos_bound (n10 + (Z.of_nat (nat_of_ascii c) - 48)) (2 ^ 64)).
    fold n1 in H. lia.
Qed.

(** A parsed sector count is a 64-bit unsigned number. *)
Lemma ParseUint_range s v :
  strconv.ParseUint s = (v, None) → 0 ≤ v ≤ strconv.maxUint64.
Proof.
  unfold strconv.ParseUint. destruct (String.eqb s EmptyString); [done |].
  apply parseLoop_range. unfold strconv.maxUint64. lia.
Qed.

Lemma decimal_mono s n : 0 ≤ n → numerals.allDigits s = true → n ≤ numerals.decimal s n.
Proof.
  revert n. induction s as [|c s IH]; intros n Hn; simpl; [lia |].
  intros [Hc Hs]%andb_prop. pose proof (digit_range c Hc).
  etransitivity; [| apply IH; [lia | done]]. lia.
Qed.

Lemma parseLoop_decimal s0 s n :
  0 ≤ n → numerals.allDigits s = true →
  numerals.decimal s n ≤ strconv.maxUint64 →
  strconv.parseLoop s0 s n = (numerals.decimal s n, None).
Proof.
  revert n. induction s as [|c s IH]; intros n Hn; simpl; [done |].
  intros [Hc Hs]%andb_prop Hmax. rewrite Hc.
  pose proof (digit_range c Hc) as Hd. unfold numerals.digit in Hd.
  pose proof (decimal_mono s (n * 10 + numerals.digit c)) as Hm.
  unfold numerals.digit in Hm, Hmax, IH |- *.
  specialize (Hm ltac:(lia) Hs).
  assert (Hfit : n * 10 + (Z.of_nat (nat_of_ascii c) - 48) ≤ strconv.maxUint64)
    by lia.
  unfold strconv.maxUint64 in Hfit.
  assert (Hcut : (strconv.cutoff <=? n) = false).
  { apply Z.leb_gt. unfold strconv.cutoff, strconv.maxUint64.
    change ((2 ^ 64 - 1) / 10 + 1) with 1844674407370955162. lia. }
  rewrite Hcut.
  rewrite (Z.mod_small (n * 10)) by lia.
  rewrite (Z.mod_small (n * 10 + _)) by lia.
  replace (n * 10 + (Z.of_nat (nat_of_ascii c) - 48) <? n * 10) with false
    by (symmetry; apply Z.ltb_ge; lia).
  replace (strconv.maxUint64 <? n * 10 + (Z.of_nat (nat_of_ascii c) - 48))
    with false by (symmetry; apply Z.ltb_ge; unfold strconv.maxUint64; lia).
  cbn [orb]. apply IH; [lia | done | done].
Qed.

(** [ParseUint] accepts every non-empty string of decimal digits whose
    number fits 64 bits, and returns that number. *)
Lemma ParseUint_decimal s :
  s ≠ EmptyString → numerals.allDigits s = true →
  numerals.decimal s 0 ≤ strconv.maxUint64 →
  strconv.ParseUint s = (numerals.decimal s 0, None).
Proof.
  intros Hne Hd Hmax. unfold strconv.ParseUint.
  rewrite (eqb_false _ _ Hne). by apply parseLoop_decimal.
Qed.

(** Multiplication by the sector size modulo [2^64]. *)
Lemma sectors_wrap_multiple s : ((s * 512) mod 2 ^ 64) mod 512 = 0.
Proof.
  change (2 ^ 64) with (512 * 2 ^ 55).
  rewrite Z.mul_comm, Z.mul_mod_distr_l by lia.
  by rewrite Z.mul_comm, Z.mod_mul by lia.
Qed.

Lemma sectors_exact s : 0 ≤ s < 2 ^ 55 → (s * 512) mod 2 ^ 64 = s * 512.
Proof. intros Hs. apply Z.mod_small. lia. Qed.

End number_facts.

(** ** Error kinds *)

Section kind_facts.
Import taxonomy.

Lemma kindOf_missing entry :
  kindOf (Errorf ("device " +:+ entry +:+ " does not exist")) = Some NotFoundError.
Proof.
  unfold kindOf, Errorf, Cause.
  rewrite prefix_append, <- append_assoc, hasSuffix_append. done.
Qed.

Lemma kindOf_undiscovered entry msg :
  kindOf (Wrap (Errorf ("failed to discover device type for " +:+ entry)) msg)
  = None.
Proof. unfold kindOf, Wrap, Errorf, Cause. by rewrite append_cons. Qed.

End kind_facts.

(** ** Type discovery *)

Section discovery.
Import block rules.
Variable fs : goos.FS.

Lemma exists_marker path :
  exists_ fs path =
    match markerOf fs path with
    | Present => (true, None)
    | Absent => (false, None)
    | Indeterminate e => (true, Some (EPath e))
    end.
Proof.
  unfold exists_, markerOf. destruct (goos.Stat fs path) as [e|]; [| done].
  by destruct (goos.IsNotExist (Some e)).
Qed.

Lemma discover_md entry :
  mdMarker fs entry = Present → discoverDeviceType fs entry = (TypeRAID, None).
Proof.
  unfold discoverDeviceType, mdMarker. intros H. by rewrite exists_marker, H.
Qed.

Lemma discover_dm entry :
  mdMarker fs entry = Absent → dmMarker fs entry = Present →
  discoverDeviceType fs entry = (TypeDeviceMapper, None).
Proof.
  unfold discoverDeviceType, mdMarker, dmMarker. intros H1 H2.
  by rewrite !exists_marker, H1, H2.
Qed.

Lemma discover_device entry :
  mdMarker fs entry = Absent → dmMarker fs entry = Absent →
  deviceMarker fs entry = Present →
  discoverDeviceType fs entry = (TypeDisk, None).
Proof.
  unfold discoverDeviceType, mdMarker, dmMarker, deviceMarker. intros H1 H2 H3.
  by rewrite !exists_marker, H1, H2, H3.
Qed.

Lemma discover_none entry :
  mdMarker fs entry = Absent → dmMarker fs entry = Absent →
  deviceMarker fs entry = Absent →
  discoverDeviceType fs entry = (TypeUnknown, None).
Proof.
  unfold discoverDeviceType, mdMarker, dmMarker, deviceMarker. intros H1 H2 H3.
  by rewrite !exists_marker, H1, H2, H3.
Qed.

Lemma discover_classify entry :
  consultedDeterminate fs entry →
  discoverDeviceType fs entry =
    (classify (isPresent (mdMarker fs entry)) (isPresent (dmMarker fs entry))
       (isPresent (deviceMarker fs entry)), None).
Proof.
  unfold consultedDeterminate, discoverDeviceType, mdMarker, dmMarker, deviceMarker.
  rewrite !exists_marker.
  destruct (markerOf fs (gopath.Join [entry; "md"])); [done | | done].
  destruct (markerOf fs (gopath.Join [entry; "dm"])); [done | | done].
  by destruct (markerOf fs (gopath.Join [entry; "device"])).
Qed.

Lemma discover_indeterminate entry :
  consultedIndeterminate fs entry →
  discoverDeviceType fs entry =
    (TypeUnknown, Some (Errorf ("failed to discover device type for " +:+ entry))).
Proof.
  unfold consultedIndeterminate, discoverDeviceType, mdMarker, dmMarker, deviceMarker.
  rewrite !exists_marker.
  intros [[e H1] | [[H1 [e H2]] | (H1 & H2 & [e H3])]].
  - by rewrite H1.
  - by rewrite H1, H2.
  - by rewrite H1, H2, H3.
Qed.

(** Discovery never yields a type together with an error other than
    [TypeUnknown]. *)
Lemma discover_error_unknown entry typ err :
  discoverDeviceType fs entry = (typ, Some err) → typ = TypeUnknown.
Proof.
  unfold discoverDeviceType. rewrite !exists_marker.
  destruct (markerOf fs (gopath.Join [entry; "md"])); [done | | by intros [= <- _]].
  destruct (markerOf fs (gopath.Join [entry; "dm"])); [done | | by intros [= <- _]].
  destruct (markerOf fs (gopath.Join [entry; "device"])); try done.
  by intros [= <- _].
Qed.

End discovery.

(** ** Construction of one device *)

Section construction.
Import block rules.
Variable fs : goos.FS.

(** The steps of [NewDevice], one lemma per exit. *)
Lemma NewDevice_missing devicePath :
  goos.IsNotExist (goos.Stat fs (entryOf (gopath.Base devicePath))) = true →
  NewDevice fs devicePath =
    (None, Some (Errorf ("device " +:+ entryOf (gopath.Base devicePath)
                         +:+ " does not exist"))).
Proof. unfold NewDevice, entryOf. by intros ->. Qed.

Lemma NewDevice_unreadable devicePath content err :
  goos.IsNotExist (goos.Stat fs (entryOf (gopath.Base devicePath))) = false →
  goos.ReadFile fs (sizeMarkerOf (gopath.Base devicePath)) = (content, Some err) →
  NewDevice fs devicePath =
    (None, Some (Wrap (EPath err)
       ("failed to read " +:+ goos.PathError_Error err +:+ " for size"))).
Proof. unfold NewDevice, sizeMarkerOf, entryOf. by intros -> ->. Qed.

Lemma NewDevice_unparsable devicePath content v err :
  goos.IsNotExist (goos.Stat fs (entryOf (gopath.Base devicePath))) = false →
  goos.ReadFile fs (sizeMarkerOf (gopath.Base devicePath)) = (content, None) →
  strconv.ParseUint (gostrings.Trim content LF) = (v, Some err) →
  NewDevice fs devicePath =
    (None, Some (Wrap (ENum err) "failed to parse device size")).
Proof. unfold NewDevice, sizeMarkerOf, entryOf. by intros -> -> ->. Qed.

Lemma NewDevice_untyped devicePath content s typ err :
  goos.IsNotExist (goos.Stat fs (entryOf (gopath.Base devicePath))) = false →
  goos.ReadFile fs (sizeMarkerOf (gopath.Base devicePath)) = (content, None) →
  strconv.ParseUint (gostrings.Trim content LF) = (s, None) →
  discoverDeviceType fs (entryOf (gopath.Base devicePath)) = (typ, Some err) →
  NewDevice fs devicePath = (None, Some (Wrap err "failed to parse device size")).
Proof. unfold NewDevice, sizeMarkerOf, entryOf. by intros -> -> -> ->. Qed.

Lemma NewDevice_built devicePath content s typ :
  goos.IsNotExist (goos.Stat fs (entryOf (gopath.Base devicePath))) = false →
  goos.ReadFile fs (sizeMarkerOf (gopath.Base devicePath)) = (content, None) →
  strconv.ParseUint (gostrings.Trim content LF) = (s, None) →
  discoverDeviceType fs (entryOf (gopath.Base devicePath)) = (typ, None) →
  NewDevice fs devicePath =
    (Some (mkDevice (gopath.Base devicePath) ((s * 512) mod 2 ^ 64)%Z typ), None).
Proof. unfold NewDevice, sizeMarkerOf, entryOf. by intros -> -> -> ->. Qed.

(** [NewDevice] returns a device or an error, never both and never
    neither. *)
Lemma NewDevice_either devicePath :
  (∃ d, NewDevice fs devicePath = (Some d, None))
  ∨ (∃ err, NewDevice fs devicePath = (None, Some err)).
Proof.
  unfold NewDevice.
  destruct (goos.IsNotExist _); [right; eauto |].
  destruct (goos.ReadFile fs _) as [content [err|]]; [right; eauto |].
  destruct (strconv.ParseUint _) as [s [err|]]; [right; eauto |].
  destruct (discoverDeviceType fs _) as [typ [err|]]; [right; eauto |].
  left; eauto.
Qed.

(** [NewDevice] reads its argument through [path.Base] only. *)
Lemma NewDevice_Base p q :
  gopath.Base p = gopath.Base q → NewDevice fs p = NewDevice fs q.
Proof. unfold NewDevice. by intros ->. Qed.

Lemma NewDevice_Name devicePath d :
  NewDevice fs devicePath = (Some d, None) → Name d = gopath.Base devicePath.
Proof.
  unfold NewDevice.
  destruct (goos.IsNotExist _); [done |].
  destruct (goos.ReadFile fs _) as [content [err|]]; [done |].
  destruct (strconv.ParseUint _) as [s [err|]]; [done |].
  destruct (discoverDeviceType fs _) as [typ [err|]]; [done |].
  by intros [= <-].
Qed.

Lemma NewDisk_missing diskPath :
  goos.IsNotExist (goos.Stat fs (entryOf (gopath.Base diskPath))) = true →
  blockdevice.NewDisk fs diskPath =
    (None, Some (Errorf ("device " +:+ entryOf (gopath.Base diskPath)
                         +:+ " does not exist"))).
Proof.
  unfold blockdevice.NewDisk, entryOf, sysfsBlockRoot, blockdevice.sysfsBlockRoot.
  by intros ->.
Qed.

Lemma NewDisk_built diskPath content s :
  goos.IsNotExist (goos.Stat fs (entryOf (gopath.Base diskPath))) = false →
  goos.ReadFile fs (sizeMarkerOf (gopath.Base diskPath)) = (content, None) →
  strconv.ParseUint (gostrings.Trim content LF) = (s, None) →
  blockdevice.NewDisk fs diskPath =
    (Some (blockdevice.mkDisk (gopath.Base diskPath) ((s * 512) mod 2 ^ 64)%Z), None).
Proof.
  unfold blockdevice.NewDisk, sizeMarkerOf, entryOf, sysfsBlockRoot,
    blockdevice.sysfsBlockRoot.
  by intros -> -> ->.
Qed.

Lemma NewDisk_Base p q :
  gopath.Base p = gopath.Base q → blockdevice.NewDisk fs p = blockdevice.NewDisk fs q.
Proof. unfold blockdevice.NewDisk. by intros ->. Qed.

Lemma NewDisk_either diskPath :
  (∃ d, blockdevice.NewDisk fs diskPath = (Some d, None))
  ∨ (∃ err, blockdevice.NewDisk fs diskPath = (None, Some err)).
Proof.
  unfold blockdevice.NewDisk.
  destruct (goos.IsNotExist _); [right; eauto |].
  destruct (goos.ReadFile fs _) as [content [err|]]; [right; eauto |].
  destruct (strconv.ParseUint _) as [s [err|]]; [right; eauto |].
  left; eauto.
Qed.

End construction.

(** ** Classification, sizes and construction errors *)

Section device_properties.
Import block rules.
Local Open Scope Z_scope.

(** C1. Classification is ordered and the first match wins: with the md
    marker present the type is RAID whatever the other markers are; with
    md absent and dm present it is DeviceMapper; with md and dm absent and
    device present it is Disk; with all three absent it is Unknown. When
    every consulted marker is present or absent the result is the one of
    the rules as worded, without an error, and the construction of a
    device whose entry exists and whose size parses returns a device of
    that type. *)
Theorem discoverDeviceType_first_match (fs : goos.FS) (entry : string) :
  (mdMarker fs entry = Present →
   discoverDeviceType fs entry = (TypeRAID, None))
  ∧ (mdMarker fs entry = Absent → dmMarker fs entry = Present →
     discoverDeviceType fs entry = (TypeDeviceMapper, None))
  ∧ (mdMarker fs entry = Absent → dmMarker fs entry = Absent →
     deviceMarker fs entry = Present →
     discoverDeviceType fs entry = (TypeDisk, None))
  ∧ (mdMarker fs entry = Absent → dmMarker fs entry = Absent →
     deviceMarker fs entry = Absent →
     discoverDeviceType fs entry = (TypeUnknown, None))
  ∧ (consultedDeterminate fs entry →
     discoverDeviceType fs entry =
       (classify (isPresent (mdMarker fs entry)) (isPresent (dmMarker fs entry))
          (isPresent (deviceMarker fs entry)), None))
  ∧ (∀ devicePath content s,
       entry = entryOf (gopath.Base devicePath) →
       goos.IsNotExist (goos.Stat fs entry) = false →
       goos.ReadFile fs (sizeMarkerOf (gopath.Base devicePath)) = (content, None) →
       strconv.ParseUint (gostrings.Trim content LF) = (s, None) →
       consultedDeterminate fs entry →
       ∃ d, NewDevice fs devicePath = (Some d, None)
            ∧ Typ d = classify (isPresent (mdMarker fs entry))
                        (isPresent (dmMarker fs entry))
                        (isPresent (deviceMarker fs entry))).
Proof.
  repeat split.
  - apply discover_md.
  - apply discover_dm.
  - apply discover_device.
  - apply discover_none.
  - apply discover_classify.
  - intros devicePath content s -> Hentry Hread Hparse Hdet.
    eexists. split.
    + apply (NewDevice_built fs devicePath content s); auto using discover_classify.
    + reflexivity.
Qed.

Lemma discoverDeviceType_first_match_witness :
  discoverDeviceType fixture.host "/sys/block/md0" = (TypeRAID, None)
  ∧ discoverDeviceType fixture.host "/sys/block/dm-1" = (TypeDeviceMapper, None)
  ∧ discoverDeviceType fixture.host "/sys/block/sda" = (TypeDisk, None)
  ∧ discoverDeviceType fixture.host "/sys/block/loop0" = (TypeUnknown, None)
  ∧ deviceMarker fixture.host "/sys/block/md0" = Present
  ∧ ∃ d, NewDevice fixture.host "/dev/md0" = (Some d, None) ∧ Typ d = TypeRAID.
Proof.
  destruct (discoverDeviceType_first_match fixture.host "/sys/block/md0")
    as (Hmd & _ & _ & _ & _ & Hnew).
  destruct (discoverDeviceType_first_match fixture.host "/sys/block/dm-1")
    as (_ & Hdm & _).
  destruct (discoverDeviceType_first_match fixture.host "/sys/block/sda")
    as (_ & _ & Hdev & _).
  destruct (discoverDeviceType_first_match fixture.host "/sys/block/loop0")
    as (_ & _ & _ & Hnone & _).
  split; [apply Hmd; reflexivity |].
  split; [apply Hdm; reflexivity |].
  split; [apply Hdev; reflexivity |].
  split; [apply Hnone; reflexivity |].
  split; [reflexivity |].
  apply (Hnew "/dev/md0"%string (fixture.line "2048") 2048);
    first [reflexivity | exact I].
Defined.

(** C2 (as the code has it). When the entry exists, the size marker reads
    as [content], its trimmed text parses as the sector count [s] and the
    type is discovered, [NewDevice] returns a device whose size is
    [s * 512] reduced modulo [2^64]: exactly [s * 512] for every
    [s < 2^55], zero for [s = 0], and a multiple of 512 always. [NewDisk]
    computes the same size. *)
Theorem NewDevice_size_wraps (fs : goos.FS) (devicePath content : string)
    (s : Z) (typ : Type') :
  goos.IsNotExist (goos.Stat fs (entryOf (gopath.Base devicePath))) = false →
  goos.ReadFile fs (sizeMarkerOf (gopath.Base devicePath)) = (content, None) →
  strconv.ParseUint (gostrings.Trim content LF) = (s, None) →
  discoverDeviceType fs (entryOf (gopath.Base devicePath)) = (typ, None) →
  ∃ d, NewDevice fs devicePath = (Some d, None)
       ∧ Size d = (s * 512) mod 2 ^ 64
       ∧ (s < 2 ^ 55 → Size d = s * 512)
       ∧ (s = 0 → Size d = 0)
       ∧ Size d mod 512 = 0
       ∧ ∃ k, blockdevice.NewDisk fs devicePath = (Some k, None)
              ∧ blockdevice.Size k = Size d.
Proof.
  intros Hentry Hread Hparse Htyp.
  pose proof (ParseUint_range _ _ Hparse) as Hs.
  eexists. split; [by eapply NewDevice_built |]. cbn [Size].
  split; [done |].
  split; [intros ?; apply sectors_exact; lia |].
  split; [by intros -> |].
  split; [apply sectors_wrap_multiple |].
  eexists. split; [by eapply NewDisk_built | done].
Qed.

Lemma NewDevice_size_wraps_witness :
  ∃ d, NewDevice fixture.host "/dev/sda" = (Some d, None)
       ∧ Size d = 512000
       ∧ ∃ d0, NewDevice fixture.host "dm-1" = (Some d0, None) ∧ Size d0 = 0.
Proof.
  destruct (NewDevice_size_wraps fixture.host "/dev/sda" (fixture.line "1000")
              1000 TypeDisk eq_refl eq_refl eq_refl eq_refl)
    as (d & Hd & Hsize & _).
  destruct (NewDevice_size_wraps fixture.host "dm-1" (fixture.line "0")
              0 TypeDeviceMapper eq_refl eq_refl eq_refl eq_refl)
    as (d0 & Hd0 & _ & _ & Hzero & _).
  exists d. split; [exact Hd |]. split; [exact Hsize |].
  exists d0. split; [exact Hd0 | apply Hzero; reflexivity].
Defined.

(** C2 as stated fails: a size marker holding [2^55] sectors parses as a
    64-bit number, and the device built from it has size 0, not
    [2^55 * 512]. *)
Lemma NewDevice_size_exact_counterexample :
  ¬ (∀ (fs : goos.FS) (devicePath content : string) (s : Z) (d : Device),
       goos.ReadFile fs (sizeMarkerOf (gopath.Base devicePath)) = (content, None) →
       strconv.ParseUint (gostrings.Trim content LF) = (s, None) →
       NewDevice fs devicePath = (Some d, None) →
       Size d = s * 512).
Proof.
  intros H.
  specialize (H fixture.hostHuge "sdz"%string (fixture.line "36028797018963968")
                (2 ^ 55) (mkDevice "sdz" 0 TypeDisk) eq_refl eq_refl eq_refl).
  discriminate H.
Qed.

(** C3 (what the code does). A consulted marker whose stat fails with an
    error other than not-exist is not taken for absent: discovery returns
    the error "failed to discover device type", and the construction
    returns no device but an error. That error is no I/O error: when the
    entry exists and the size parses it is the message of discovery under
    the context "failed to parse device size"; its cause is that message,
    the path error of the stat is not in it, and it has no kind. *)
Theorem NewDevice_marker_error_aborts (fs : goos.FS) (devicePath : string) :
  consultedIndeterminate fs (entryOf (gopath.Base devicePath)) →
  let failed :=
    Errorf ("failed to discover device type for "
            +:+ entryOf (gopath.Base devicePath)) in
  discoverDeviceType fs (entryOf (gopath.Base devicePath))
    = (TypeUnknown, Some failed)
  ∧ (∃ err, NewDevice fs devicePath = (None, Some err))
  ∧ (∀ content s,
       goos.IsNotExist (goos.Stat fs (entryOf (gopath.Base devicePath))) = false →
       goos.ReadFile fs (sizeMarkerOf (gopath.Base devicePath)) = (content, None) →
       strconv.ParseUint (gostrings.Trim content LF) = (s, None) →
       NewDevice fs devicePath
         = (None, Some (Wrap failed "failed to parse device size"))
       ∧ Cause (Wrap failed "failed to parse device size") = failed
       ∧ (∀ e, Cause (Wrap failed "failed to parse device size") ≠ EPath e)
       ∧ taxonomy.kindOf (Wrap failed "failed to parse device size") = None).
Proof.
  intros Hind failed. pose proof (discover_indeterminate fs _ Hind) as Hdisc.
  split; [exact Hdisc |]. split.
  - destruct (NewDevice_either fs devicePath) as [[d Hd] | Herr]; [| exact Herr].
    exfalso. revert Hd. unfold NewDevice. fold (entryOf (gopath.Base devicePath)).
    destruct (goos.IsNotExist _); [done |].
    destruct (goos.ReadFile fs _) as [content [err|]]; [done |].
    destruct (strconv.ParseUint _) as [s [err|]]; [done |].
    by rewrite Hdisc.
  - intros content s Hentry Hread Hparse.
    split; [by eapply NewDevice_untyped |].
    split; [done |]. split; [done |]. apply kindOf_undiscovered.
Qed.

Lemma NewDevice_marker_error_aborts_witness :
  dmMarker fixture.hostDenied "/sys/block/sda"
    = Indeterminate (goos.mkPathError "stat" "/sys/block/sda/dm" goos.EACCES)
  ∧ deviceMarker fixture.hostDenied "/sys/block/sda" = Present
  ∧ NewDevice fixture.hostDenied "sda"
    = (None, Some (Wrap (Errorf "failed to discover device type for /sys/block/sda")
                     "failed to parse device size"))
  ∧ taxonomy.kindOf
      (Wrap (Errorf "failed to discover device type for /sys/block/sda")
         "failed to parse device size")
    = None.
Proof.
  split; [reflexivity |]. split; [reflexivity |].
  assert (consultedIndeterminate fixture.hostDenied
            (entryOf (gopath.Base "sda"))) as Hind.
  { right. left. split; [reflexivity |]. eexists. reflexivity. }
  destruct (proj2 (proj2 (NewDevice_marker_error_aborts fixture.hostDenied
              "sda"%string Hind)) (fixture.line "1000") 1000 eq_refl eq_refl eq_refl)
    as (Hnew & _ & _ & Hkind).
  split; [exact Hnew | exact Hkind].
Defined.

(** C6. A name whose entry does not exist makes the construction fail
    with the error "device ... does not exist": a fresh error that wraps
    no path error and no number error, of kind not-found. [NewDisk] fails
    with the same error. *)
Theorem NewDevice_missing_entry (fs : goos.FS) (devicePath : string) :
  goos.IsNotExist (goos.Stat fs (entryOf (gopath.Base devicePath))) = true →
  let err :=
    Errorf ("device " +:+ entryOf (gopath.Base devicePath) +:+ " does not exist") in
  NewDevice fs devicePath = (None, Some err)
  ∧ blockdevice.NewDisk fs devicePath = (None, Some err)
  ∧ Cause err = err
  ∧ taxonomy.kindOf err = Some taxonomy.NotFoundError
  ∧ taxonomy.kindOf err ≠ Some taxonomy.IOError
  ∧ taxonomy.kindOf err ≠ Some taxonomy.ParseError.
Proof.
  intros Hmissing err.
  split; [by apply NewDevice_missing |].
  split; [by apply NewDisk_missing |].
  split; [done |]. unfold err. rewrite kindOf_missing. done.
Qed.

Lemma NewDevice_missing_entry_witness :
  NewDevice fixture.host "/dev/nope"
  = (None, Some (Errorf "device /sys/block/nope does not exist")).
Proof.
  exact (proj1 (NewDevice_missing_entry fixture.host "/dev/nope"%string eq_refl)).
Defined.

(** C8. Only the final path component counts: a bare name behind any
    prefix has the bare name as its base, names the same metadata entry,
    and is constructed to the same result as the bare name itself; a
    device so constructed carries the bare name. Two paths with the same
    base are constructed to the same result. When the entry of the name
    exists, its size parses and its type is discovered, the path with the
    prefix and the bare name both yield the device with the bare name;
    when the entry does not exist, both fail with the same error. *)
Theorem NewDevice_final_component (fs : goos.FS) (pre name : string) :
  bareName name →
  gopath.Base (pre +:+ "/" +:+ name) = name
  ∧ gopath.Base name = name
  ∧ entryOf (gopath.Base (pre +:+ "/" +:+ name)) = entryOf (gopath.Base name)
  ∧ NewDevice fs (pre +:+ "/" +:+ name) = NewDevice fs name
  ∧ blockdevice.NewDisk fs (pre +:+ "/" +:+ name) = blockdevice.NewDisk fs name
  ∧ (∀ d, NewDevice fs name = (Some d, None) → Name d = name)
  ∧ (∀ p q, gopath.Base p = gopath.Base q → NewDevice fs p = NewDevice fs q)
  ∧ (∀ content s typ,
       goos.IsNotExist (goos.Stat fs (entryOf name)) = false →
       goos.ReadFile fs (sizeMarkerOf name) = (content, None) →
       strconv.ParseUint (gostrings.Trim content LF) = (s, None) →
       discoverDeviceType fs (entryOf name) = (typ, None) →
       NewDevice fs (pre +:+ "/" +:+ name)
       = (Some (mkDevice name ((s * 512) mod 2 ^ 64) typ), None)
       ∧ NewDevice fs name
         = (Some (mkDevice name ((s * 512) mod 2 ^ 64) typ), None)
       ∧ blockdevice.NewDisk fs (pre +:+ "/" +:+ name)
         = (Some (blockdevice.mkDisk name ((s * 512) mod 2 ^ 64)), None)
       ∧ blockdevice.NewDisk fs name
         = (Some (blockdevice.mkDisk name ((s * 512) mod 2 ^ 64)), None))
  ∧ (goos.IsNotExist (goos.Stat fs (entryOf name)) = true →
     NewDevice fs (pre +:+ "/" +:+ name)
     = (None, Some (Errorf ("device " +:+ entryOf name +:+ " does not exist")))
     ∧ NewDevice fs name
       = (None, Some (Errorf ("device " +:+ entryOf name +:+ " does not exist")))).
Proof.
  intros Hbare.
  pose proof (Base_prefixed pre name Hbare) as Hpre.
  pose proof (Base_bare name Hbare) as Hname.
  split; [done |]. split; [done |].
  split; [by rewrite Hpre, Hname |].
  split; [apply NewDevice_Base; congruence |].
  split; [apply NewDisk_Base; congruence |].
  split; [intros d Hd; by rewrite (NewDevice_Name fs name d Hd) |].
  split; [apply NewDevice_Base |].
  split.
  - intros content s typ Hentry Hread Hparse Htyp.
    rewrite <- Hname in Hentry, Hread, Htyp.
    pose proof (NewDevice_built fs name content s typ Hentry Hread Hparse Htyp)
      as Hdev.
    pose proof (NewDisk_built fs name content s Hentry Hread Hparse) as Hdisk.
    rewrite Hname in Hdev, Hdisk.
    split; [| split; [done |]; split; [| done]].
    + rewrite <- Hdev. apply NewDevice_Base. congruence.
    + rewrite <- Hdisk. apply NewDisk_Base. congruence.
  - intros Hmissing. rewrite <- Hname in Hmissing.
    pose proof (NewDevice_missing fs name Hmissing) as Hdev.
    rewrite Hname in Hdev. split; [| done].
    rewrite <- Hdev. apply NewDevice_Base. congruence.
Qed.

Lemma NewDevice_final_component_witness :
  NewDevice fixture.host "/dev/sda" = (Some (mkDevice "sda" 512000 TypeDisk), None)
  ∧ NewDevice fixture.host "sda" = (Some (mkDevice "sda" 512000 TypeDisk), None)
  ∧ NewDevice fixture.host "/dev/sda" = NewDevice fixture.host "sda"
  ∧ ∀ d, NewDevice fixture.host "sda" = (Some d, None) → Name d = "sda"%string.
Proof.
  assert (Hbare : bareName "sda") by (split; [discriminate | reflexivity]).
  destruct (NewDevice_final_component fixture.host "/dev" "sda" Hbare)
    as (_ & _ & _ & Hsame & _ & Hname & _ & Hbuilt & _).
  destruct (Hbuilt (fixture.line "1000") 1000%Z TypeDisk
              eq_refl eq_refl eq_refl eq_refl) as (Hlong & Hshort & _).
  split; [exact Hlong |]. split; [exact Hshort |].
  split; [exact Hsame | exact Hname].
Defined.

End device_properties.

(** ** Bulk construction *)

Section bulk.
Import block registry.
Variable fs : goos.FS.

Lemma loop_all paths ds acc :
  Forall2 (constructs fs) paths ds →
  NewDevicesFromPaths_loop fs paths acc = Returns (Some (acc ++ ds), None).
Proof.
  intros H. revert acc.
  induction H as [|p d paths ds Hp _ IH]; intros acc; simpl.
  - by rewrite app_nil_r.
  - rewrite Hp, IH. by rewrite <- app_assoc.
Qed.

Lemma loop_first_failure before p after ds err acc :
  Forall2 (constructs fs) before ds → failsWith fs p err →
  NewDevicesFromPaths_loop fs (before ++ p :: after) acc
  = Returns (None, Some (inContext err)).
Proof.
  intros H [x Hp]. revert acc.
  induction H as [|q d before ds Hq _ IH]; intros acc; simpl.
  - rewrite Hp. by destruct x.
  - rewrite Hq. apply IH.
Qed.

(** Every list of names either is constructed in full or has a first name
    that fails. *)
Lemma paths_split paths :
  (∃ ds, Forall2 (constructs fs) paths ds)
  ∨ (∃ before p after ds err,
       paths = before ++ p :: after ∧ Forall2 (constructs fs) before ds
       ∧ failsWith fs p err).
Proof.
  induction paths as [|p paths IH].
  - left. exists []. constructor.
  - destruct (NewDevice_either fs p) as [[d Hd] | [err Herr]].
    + destruct IH as [[ds Hds] | (before & q & after & ds & err & -> & Hds & Hq)].
      * left. exists (d :: ds). by constructor.
      * right. exists (p :: before), q, after, (d :: ds), err.
        split; [done |]. split; [by constructor | done].
    + right. exists [], p, paths, [], err.
      split; [done |]. split; [constructor | by eexists].
Qed.

Lemma constructs_not_fails p d err : constructs fs p d → ¬ failsWith fs p err.
Proof.
  unfold constructs, failsWith. intros H [x Hx]. rewrite H in Hx. discriminate Hx.
Qed.

Lemma disk_loop_all paths ds acc :
  Forall2 (constructsDisk fs) paths ds →
  blockdevice.NewDiskSliceFromPaths_loop fs paths acc = Returns (Some (acc ++ ds), None).
Proof.
  intros H. revert acc.
  induction H as [|p d paths ds Hp _ IH]; intros acc; simpl.
  - by rewrite app_nil_r.
  - rewrite Hp, IH. by rewrite <- app_assoc.
Qed.

Lemma disk_loop_first_failure before p after ds err acc :
  Forall2 (constructsDisk fs) before ds → diskFailsWith fs p err →
  blockdevice.NewDiskSliceFromPaths_loop fs (before ++ p :: after) acc
  = Returns (None, Some (inContext err)).
Proof.
  intros H [x Hp]. revert acc.
  induction H as [|q d before ds Hq _ IH]; intros acc; simpl.
  - rewrite Hp. by destruct x.
  - rewrite Hq. apply IH.
Qed.

(** C5. Bulk construction is all or nothing. When every name is
    constructed, the call returns the devices, one per name and in the
    order of the names (a name given twice gives its device twice). When
    the names before [p] are constructed and [p] fails, the call returns
    no collection and the error of [p] in context. One of the two always
    happens, so a name that fails anywhere makes the call return no
    collection and the error of a failing name; the call never panics.
    Listing the devices of the system is the bulk construction of the
    names read from the root, and bulk construction of disks behaves the
    same. *)
Theorem NewDevicesFromPaths_all_or_nothing (paths : list string) :
  (∀ ds, Forall2 (constructs fs) paths ds →
     NewDevicesFromPaths fs paths = Returns (Some ds, None)
     ∧ length ds = length paths)
  ∧ (∀ before p after ds err,
       paths = before ++ p :: after →
       Forall2 (constructs fs) before ds → failsWith fs p err →
       NewDevicesFromPaths fs paths = Returns (None, Some (inContext err)))
  ∧ (∀ p err, p ∈ paths → failsWith fs p err →
       ∃ q err', q ∈ paths ∧ failsWith fs q err'
         ∧ NewDevicesFromPaths fs paths = Returns (None, Some (inContext err')))
  ∧ ((∃ ds, Forall2 (constructs fs) paths ds
            ∧ NewDevicesFromPaths fs paths = Returns (Some ds, None))
     ∨ (∃ err, NewDevicesFromPaths fs paths = Returns (None, Some (inContext err))))
  ∧ (∀ p d, paths = [p; p] → constructs fs p d →
       NewDevicesFromPaths fs paths = Returns (Some [d; d], None))
  ∧ (goos.Open fs sysfsBlockRoot = None →
     goos.Readdirnames fs sysfsBlockRoot = (paths, None) →
     ListDevices fs = NewDevicesFromPaths fs paths)
  ∧ (∀ ks, Forall2 (constructsDisk fs) paths ks →
       blockdevice.NewDiskSliceFromPaths fs paths = Returns (Some ks, None))
  ∧ (∀ before p after ks err,
       paths = before ++ p :: after →
       Forall2 (constructsDisk fs) before ks → diskFailsWith fs p err →
       blockdevice.NewDiskSliceFromPaths fs paths
       = Returns (None, Some (inContext err))).
Proof.
  unfold NewDevicesFromPaths, blockdevice.NewDiskSliceFromPaths.
  split; [| split; [| split; [| split; [| split; [| split; [| split]]]]]].
  - intros ds Hds. split; [by rewrite (loop_all _ _ _ Hds) |].
    symmetry. by eapply Forall2_length.
  - intros before p after ds err -> Hds Hp. by eapply loop_first_failure.
  - intros p err Hin Hp.
    destruct (paths_split paths)
      as [[ds Hds] | (before & q & after & ds & err' & -> & Hds & Hq)].
    + exfalso. apply list_elem_of_lookup in Hin as [i Hi].
      destruct (Forall2_lookup_l _ _ _ _ _ Hds Hi) as (d & _ & Hd).
      by apply (constructs_not_fails p d err).
    + exists q, err'.
      split; [apply elem_of_app; right; apply elem_of_cons; by left |].
      split; [done |].
      by eapply loop_first_failure.
  - destruct (paths_split paths)
      as [[ds Hds] | (before & q & after & ds & err' & -> & Hds & Hq)].
    + left. exists ds. split; [done |]. by rewrite (loop_all _ _ _ Hds).
    + right. exists err'. by eapply loop_first_failure.
  - intros p d -> Hd. apply (loop_all [p; p] [d; d] []).
    by repeat constructor.
  - unfold ListDevices. by intros -> ->.
  - intros ks Hks. by rewrite (disk_loop_all _ _ _ Hks).
  - intros before p after ks err -> Hks Hp. by eapply disk_loop_first_failure.
Qed.

End bulk.

Lemma NewDevicesFromPaths_all_or_nothing_witness :
  block.NewDevicesFromPaths fixture.host ["sda"; "nope"; "md0"]%string
  = Returns (None, Some (registry.inContext
               (Errorf "device /sys/block/nope does not exist")))
  ∧ block.NewDevicesFromPaths fixture.host ["/dev/sda"; "sda"]%string
    = Returns (Some [block.mkDevice "sda" 512000 block.TypeDisk;
                     block.mkDevice "sda" 512000 block.TypeDisk], None).
Proof.
  destruct (NewDevicesFromPaths_all_or_nothing fixture.host
              ["sda"; "nope"; "md0"]%string) as (_ & Hfail & _).
  destruct (NewDevicesFromPaths_all_or_nothing fixture.host
              ["/dev/sda"; "sda"]%string) as (Hall & _).
  split.
  - apply (Hfail ["sda"%string] "nope"%string ["md0"%string]
             [block.mkDevice "sda" 512000 block.TypeDisk]).
    + reflexivity.
    + repeat constructor.
    + eexists. reflexivity.
  - apply Hall. repeat constructor.
Defined.

(** ** Attributes *)

Section attributes.
Import blockdevice lines.

Lemma SplitN_separator line i :
  gostrings.IndexByte line equals = Some i →
  gostrings.SplitN line equals 2 = [gostrings.upto i line; gostrings.from (S i) line].
Proof. simpl. by intros ->. Qed.

Lemma SplitN_whole line :
  gostrings.IndexByte line equals = None → gostrings.SplitN line equals 2 = [line].
Proof. simpl. by intros ->. Qed.

Lemma attributes_eta attrs :
  mkAttributes (UUID attrs) (Type' attrs) (Label attrs) = attrs.
Proof. by destruct attrs. Qed.

(** An empty line is skipped. *)
Lemma parseLine_empty attrs : parseLine attrs EmptyString = Returns attrs.
Proof. reflexivity. Qed.

(** A line that is not empty and has no separator panics. *)
Lemma parseLine_malformed attrs line :
  wellFormedLine line = false → parseLine attrs line = Panics outOfRange.
Proof.
  unfold wellFormedLine, hasSeparator, parseLine.
  destruct (String.eqb line EmptyString); [done |]. cbn [orb].
  destruct (gostrings.IndexByte line equals) eqn:E; [done |]. intros _.
  by rewrite (SplitN_whole _ E).
Qed.

(** A line the parser accepts updates the field of its key. *)
Lemma parseLine_assign attrs line :
  wellFormedLine line = true → parseLine attrs line = Returns (assign attrs line).
Proof.
  unfold wellFormedLine, hasSeparator, parseLine, assign, hasKey.
  destruct (String.eqb line EmptyString); cbn [orb negb andb].
  - intros _. by rewrite attributes_eta.
  - unfold keyOf, valueOf.
    destruct (gostrings.IndexByte line equals) as [i|] eqn:E; [intros _ | done].
    rewrite (SplitN_separator _ _ E). cbn [lookup list_lookup].
    destruct (String.eqb (gostrings.upto i line) attributeUUIDKey) eqn:E1.
    { apply String.eqb_eq in E1. by rewrite ?E1. }
    destruct (String.eqb (gostrings.upto i line) attributeLabelKey) eqn:E2.
    { apply String.eqb_eq in E2. by rewrite ?E2. }
    destruct (String.eqb (gostrings.upto i line) attributeTypeKey) eqn:E3.
    { apply String.eqb_eq in E3. by rewrite ?E3. }
    by rewrite attributes_eta.
Qed.

Lemma default_carry (b : bool) (v a : string) (o : option string) :
  default (if b then v else a) o
  = default a (match o with
               | Some w => Some w
               | None => if b then Some v else None
               end).
Proof. by destruct o, b. Qed.

Lemma parseLines_collected ls attrs :
  wellFormed ls = true → parseLines ls attrs = Returns (collected attrs ls).
Proof.
  revert attrs. induction ls as [|line ls IH]; intros attrs; simpl.
  - intros _. unfold collected. simpl. by rewrite attributes_eta.
  - intros [Hline Hls]%andb_prop.
    rewrite (parseLine_assign _ _ Hline). cbn [mbind outcome_bind].
    rewrite (IH _ Hls). unfold collected, assign. simpl.
    by rewrite !default_carry.
Qed.

Lemma parseLines_malformed ls attrs :
  wellFormed ls = false → parseLines ls attrs = Panics outOfRange.
Proof.
  revert attrs. induction ls as [|line ls IH]; intros attrs; simpl; [done |].
  destruct (wellFormedLine line) eqn:Hline; cbn [andb].
  - intros Hls. rewrite (parseLine_assign _ _ Hline). cbn [mbind outcome_bind].
    by apply IH.
  - intros _. by rewrite (parseLine_malformed _ _ Hline).
Qed.

(** Lines with unrecognized keys, and empty lines, change nothing. *)
Lemma parseLines_recognized ls attrs :
  wellFormed ls = true →
  parseLines (recognizedLines ls) attrs = parseLines ls attrs.
Proof.
  revert attrs. induction ls as [|line ls IH]; intros attrs; simpl; [done |].
  intros [Hline Hls]%andb_prop.
  rewrite (parseLine_assign _ _ Hline). cbn [mbind outcome_bind].
  destruct (recognized (keyOf line)) eqn:Hrec; simpl.
  - rewrite (parseLine_assign _ _ Hline). cbn [mbind outcome_bind]. by apply IH.
  - rewrite (IH _ Hls). f_equal. unfold assign, hasKey.
    unfold recognized in Hrec.
    apply orb_false_elim in Hrec as [[H1 H2]%orb_false_elim H3].
    rewrite H1, H2, H3, !andb_false_r. by rewrite attributes_eta.
Qed.

Lemma reported_none key ls : appears key ls = false → reported key ls = None.
Proof.
  induction ls as [|line ls IH]; simpl; [done |].
  intros [H1 H2]%orb_false_elim. by rewrite (IH H2), H1.
Qed.

Lemma reported_last key before line after :
  hasKey key line = true → appears key after = false →
  reported key (before ++ line :: after) = Some (valueOf line).
Proof.
  intros Hkey Hafter. induction before as [|l before IH]; simpl.
  - by rewrite (reported_none _ _ Hafter), Hkey.
  - by rewrite IH.
Qed.

Lemma field_collected key ls :
  recognized key = true →
  field key (collected zeroAttributes ls) = default EmptyString (reported key ls).
Proof.
  unfold recognized, field.
  destruct (String.eqb key attributeUUIDKey) eqn:E1.
  { apply String.eqb_eq in E1. by subst. }
  destruct (String.eqb key attributeTypeKey) eqn:E2.
  { apply String.eqb_eq in E2. by subst. }
  destruct (String.eqb key attributeLabelKey) eqn:E3; [| done].
  apply String.eqb_eq in E3. by subst.
Qed.

Lemma GetAttributes_answers {T} `{BlockDevicer T} (bd : T) output :
  GetAttributes (answers output) bd =
    attrs ← parseLines (gostrings.Split output LF) zeroAttributes;
    Returns (Some attrs, None).
Proof. reflexivity. Qed.

End attributes.

Section attribute_properties.
Import blockdevice lines.

Lemma malformed_line ls line :
  line ∈ ls → line ≠ EmptyString → gostrings.IndexByte line equals = None →
  wellFormed ls = false.
Proof.
  intros Hin Hne Hsep. apply not_true_is_false. intros Hwf.
  unfold wellFormed in Hwf. rewrite forallb_forall in Hwf.
  apply list_elem_of_In in Hin. specialize (Hwf _ Hin).
  unfold wellFormedLine, hasSeparator in Hwf.
  by rewrite Hsep, (eqb_false _ _ Hne) in Hwf.
Qed.

(** C4 (what the code does). On every output of the tool that has a line
    which is not empty and has no separator, [GetAttributes] panics on
    the unchecked index [kv[1]]: it returns neither a record nor an
    error. *)
Theorem GetAttributes_malformed_panics (bd : Disk) (output line : string) :
  line ∈ gostrings.Split output LF →
  line ≠ EmptyString →
  gostrings.IndexByte line equals = None →
  GetAttributes (answers output) bd = Panics outOfRange.
Proof.
  intros Hin Hne Hsep. rewrite GetAttributes_answers.
  by rewrite (parseLines_malformed _ _ (malformed_line _ _ Hin Hne Hsep)).
Qed.

Lemma GetAttributes_malformed_panics_witness :
  GetAttributes (answers (fixture.line "UUID=abc-123" +:+ fixture.line "garbage"))
    (mkDisk "sda" 0)
  = Panics "index out of range [1] with length 1".
Proof.
  apply (GetAttributes_malformed_panics _ _ "garbage").
  - vm_compute. apply elem_of_cons. right. apply elem_of_cons. by left.
  - discriminate.
  - reflexivity.
Defined.

(** C9 (as the code has it). On every output of the tool whose lines are
    empty or have a separator, [GetAttributes] returns a record and no
    error; the field of each recognized key holds the value reported for
    the key, and the empty string when no line carries the key; lines
    with other keys change nothing. *)
Theorem GetAttributes_reports (bd : Disk) (output : string) :
  wellFormed (gostrings.Split output LF) = true →
  ∃ attrs,
    GetAttributes (answers output) bd = Returns (Some attrs, None)
    ∧ attrs = mkAttributes
                (default EmptyString (reported attributeUUIDKey (gostrings.Split output LF)))
                (default EmptyString (reported attributeTypeKey (gostrings.Split output LF)))
                (default EmptyString (reported attributeLabelKey (gostrings.Split output LF)))
    ∧ (∀ key, recognized key = true →
         field key attrs
         = default EmptyString (reported key (gostrings.Split output LF)))
    ∧ (∀ key, recognized key = true →
         appears key (gostrings.Split output LF) = false →
         field key attrs = EmptyString)
    ∧ parseLines (recognizedLines (gostrings.Split output LF)) zeroAttributes
      = Returns attrs.
Proof.
  intros Hwf. exists (collected zeroAttributes (gostrings.Split output LF)).
  split; [by rewrite GetAttributes_answers, (parseLines_collected _ _ Hwf) |].
  split; [done |].
  split; [intros key Hkey; by apply field_collected |].
  split.
  - intros key Hkey Habsent.
    by rewrite (field_collected _ _ Hkey), (reported_none _ _ Habsent).
  - by rewrite (parseLines_recognized _ _ Hwf), (parseLines_collected _ _ Hwf).
Qed.

Lemma GetAttributes_reports_witness :
  GetAttributes (answers (fixture.line "UUID=abc-123" +:+ fixture.line "TYPE=ext4"))
    (mkDisk "sda" 0)
  = Returns (Some (mkAttributes "abc-123" "ext4" EmptyString), None).
Proof.
  destruct (GetAttributes_reports (mkDisk "sda" 0)
              (fixture.line "UUID=abc-123" +:+ fixture.line "TYPE=ext4") eq_refl)
    as (attrs & Hret & -> & _).
  exact Hret.
Defined.

(** C9 as stated fails: the record does not tell a label that is absent
    from one that is present and empty. No test on the record decides,
    for all accepted outputs, whether the label key appeared: the output
    with the single line "LABEL=" and the empty output give the same
    record. *)
Lemma GetAttributes_unset_counterexample :
  ¬ (∃ labelSet : Attributes → bool,
       ∀ output attrs,
         wellFormed (gostrings.Split output LF) = true →
         GetAttributes (answers output) (mkDisk "sda" 0) = Returns (Some attrs, None) →
         labelSet attrs = appears attributeLabelKey (gostrings.Split output LF)).
Proof.
  intros [labelSet H].
  pose proof (H (fixture.line "LABEL=") zeroAttributes eq_refl eq_refl) as H1.
  pose proof (H EmptyString zeroAttributes eq_refl eq_refl) as H2.
  vm_compute in H1, H2. congruence.
Qed.

(** C10. Of several lines with the same recognized key the last one
    counts: when the lines are accepted, a line carries the key and no
    later line does, the field of the key holds the value of that line,
    whatever the earlier lines say. *)
Theorem GetAttributes_last_wins (bd : Disk) (output : string)
    (before after : list string) (line key : string) :
  gostrings.Split output LF = before ++ line :: after →
  wellFormed (gostrings.Split output LF) = true →
  recognized key = true →
  hasKey key line = true →
  appears key after = false →
  ∃ attrs, GetAttributes (answers output) bd = Returns (Some attrs, None)
           ∧ field key attrs = valueOf line.
Proof.
  intros Hsplit Hwf Hrec Hkey Hafter.
  exists (collected zeroAttributes (gostrings.Split output LF)).
  split; [by rewrite GetAttributes_answers, (parseLines_collected _ _ Hwf) |].
  rewrite (field_collected _ _ Hrec), Hsplit.
  by rewrite (reported_last _ _ _ _ Hkey Hafter).
Qed.

Lemma GetAttributes_last_wins_witness :
  ∃ attrs,
    GetAttributes
      (answers (fixture.line "LABEL=old" +:+ fixture.line "UUID=u"
                +:+ fixture.line "LABEL=new"))
      (mkDisk "sda" 0)
    = Returns (Some attrs, None)
    ∧ Label attrs = "new"%string.
Proof.
  exact (GetAttributes_last_wins (mkDisk "sda" 0)
           (fixture.line "LABEL=old" +:+ fixture.line "UUID=u"
            +:+ fixture.line "LABEL=new")
           ["LABEL=old"; "UUID=u"]%string [EmptyString] "LABEL=new" "LABEL"
           eq_refl eq_refl eq_refl eq_refl eq_refl).
Defined.

End attribute_properties.

(** ** The size ordering view *)

Section ordering_facts.
Import blockdevice ordering.
Implicit Types (x y : Disk) (l before after rest : list Disk).

Lemma lookup_lower before y x after :
  (before ++ y :: x :: after) !! length before = Some y.
Proof. by apply list_lookup_middle. Qed.

Lemma lookup_upper before y x after :
  (before ++ y :: x :: after) !! S (length before) = Some x.
Proof.
  change (before ++ y :: x :: after) with (before ++ [y] ++ x :: after).
  rewrite app_assoc. apply list_lookup_middle.
  rewrite length_app. simpl. lia.
Qed.

(** An index that is a natural number is not negative. *)
Lemma index_of_nat (l : list Disk) (n : nat) : index l (Z.of_nat n) = l !! n.
Proof.
  unfold index. destruct (Z.ltb_spec (Z.of_nat n) 0); [lia |].
  by rewrite Nat2Z.id.
Qed.

Lemma Less_adjacent before y x after :
  Less (before ++ y :: x :: after) (Z.of_nat (S (length before)))
    (Z.of_nat (length before))
  = Returns (Size x <? Size y)%Z.
Proof. unfold Less. by rewrite !index_of_nat, lookup_upper, lookup_lower. Qed.

Lemma Swap_adjacent before y x after :
  Swap (before ++ y :: x :: after) (Z.of_nat (S (length before)))
    (Z.of_nat (length before))
  = Returns (before ++ x :: y :: after).
Proof.
  unfold Swap. rewrite !index_of_nat, !Nat2Z.id, lookup_upper, lookup_lower.
  f_equal.
  rewrite (insert_app_r_alt before _ (S (length before))) by lia.
  replace (S (length before) - length before) with 1 by lia.
  rewrite (insert_app_r_alt before _ (length before)) by lia.
  by rewrite Nat.sub_diag.
Qed.

Lemma insertLast_nil x : insertLast [] x = [x].
Proof. reflexivity. Qed.

Lemma insertLast_snoc before y x :
  insertLast (before ++ [y]) x =
    if (Size x <? Size y)%Z then insertLast before x ++ [y]
    else before ++ [y; x].
Proof.
  unfold insertLast. rewrite reverse_snoc. simpl.
  destruct (Size x <? Size y)%Z.
  - by rewrite reverse_cons.
  - rewrite !reverse_cons, reverse_involutive. by rewrite <- app_assoc.
Qed.

(** The loop that moves the element at [j] down computes [insertLast]. *)
Lemma sinkDown_insertLast before x after :
  sinkDown (before ++ x :: after) (length before)
  = Returns (insertLast before x ++ after).
Proof.
  revert after. induction before as [|y before IH] using rev_ind; intros after.
  - reflexivity.
  - rewrite length_app, Nat.add_1_r, <- app_assoc. cbn [app sinkDown].
    rewrite Less_adjacent. cbn [mbind outcome_bind]. rewrite insertLast_snoc.
    destruct (Size x <? Size y)%Z.
    + rewrite Swap_adjacent. cbn [mbind outcome_bind].
      rewrite IH. by rewrite <- app_assoc.
    + by rewrite <- app_assoc.
Qed.

Lemma length_sinkInto x l : length (sinkInto x l) = S (length l).
Proof.
  induction l as [|y l IH]; simpl; [done |].
  destruct (Size x <? Size y)%Z; simpl; by rewrite ?IH.
Qed.

Lemma length_insertLast l x : length (insertLast l x) = S (length l).
Proof. unfold insertLast. by rewrite length_reverse, length_sinkInto, length_reverse. Qed.

Lemma insertionLoop_insertAll rest pre :
  insertionLoop (length rest) (length pre) (pre ++ rest)
  = Returns (insertAll pre rest).
Proof.
  revert pre. induction rest as [|x rest IH]; intros pre; simpl.
  - by rewrite app_nil_r.
  - rewrite sinkDown_insertLast. cbn [mbind outcome_bind].
    rewrite <- (length_insertLast pre x). apply IH.
Qed.

(** The view never panics and is the fold of [insertLast]. *)
Lemma sortBySize_insertAll ds : sortBySize ds = Returns (insertAll [] ds).
Proof.
  unfold sortBySize, Len. destruct ds as [|x rest]; [done |].
  simpl. rewrite Nat.sub_0_r.
  apply (insertionLoop_insertAll rest [x]).
Qed.

(** Insertion passes only elements of a strictly greater size. *)
Lemma sinkInto_filter s x l :
  filter (ofSize s) (sinkInto x l) = filter (ofSize s) (x :: l).
Proof.
  induction l as [|y l IH]; simpl; [done |].
  destruct (Size x <? Size y)%Z eqn:E; [| done].
  apply Z.ltb_lt in E.
  rewrite (filter_cons _ y), IH, !filter_cons. unfold ofSize.
  repeat case_decide; try done; lia.
Qed.

Lemma sinkInto_Permutation x l : sinkInto x l ≡ₚ x :: l.
Proof.
  induction l as [|y l IH]; simpl; [done |].
  destruct (Size x <? Size y)%Z; [| done].
  rewrite IH. apply Permutation_swap.
Qed.

Lemma sinkInto_HdRel x y l :
  (Size x < Size y)%Z → HdRel (flip bySize) y l →
  HdRel (flip bySize) y (sinkInto x l).
Proof.
  intros Hxy Hl. destruct l as [|z l]; simpl.
  - constructor. unfold flip, bySize. lia.
  - destruct (Size x <? Size z)%Z.
    + constructor. by inversion Hl.
    + constructor. unfold flip, bySize. lia.
Qed.

Lemma sinkInto_Sorted x l :
  Sorted (flip bySize) l → Sorted (flip bySize) (sinkInto x l).
Proof.
  induction 1 as [|y l Hl IH Hy]; simpl.
  - by repeat constructor.
  - destruct (Size x <? Size y)%Z eqn:E.
    + apply Z.ltb_lt in E. constructor; [done |]. by apply sinkInto_HdRel.
    + apply Z.ltb_ge in E. constructor; [by constructor |].
      constructor. unfold flip, bySize. lia.
Qed.

Lemma insertLast_filter s l x :
  filter (ofSize s) (insertLast l x) = filter (ofSize s) (l ++ [x]).
Proof.
  unfold insertLast. rewrite filter_reverse, sinkInto_filter.
  by rewrite <- reverse_snoc, filter_reverse, reverse_involutive.
Qed.

Lemma insertLast_Permutation l x : insertLast l x ≡ₚ l ++ [x].
Proof.
  unfold insertLast. rewrite reverse_Permutation, sinkInto_Permutation.
  rewrite reverse_Permutation. apply Permutation_cons_append.
Qed.

Lemma insertLast_Sorted l x : Sorted bySize l → Sorted bySize (insertLast l x).
Proof.
  intros Hl. unfold insertLast.
  apply (Sorted_reverse (flip bySize)), sinkInto_Sorted.
  by apply Sorted_reverse.
Qed.

Lemma insertAll_filter s rest pre :
  filter (ofSize s) (insertAll pre rest) = filter (ofSize s) (pre ++ rest).
Proof.
  revert pre. induction rest as [|x rest IH]; intros pre; simpl.
  - by rewrite app_nil_r.
  - unfold insertAll in IH |- *. simpl. rewrite IH.
    rewrite !filter_app, insertLast_filter, filter_app, <- app_assoc.
    by rewrite <- filter_app.
Qed.

Lemma insertAll_Permutation rest pre : insertAll pre rest ≡ₚ pre ++ rest.
Proof.
  revert pre. induction rest as [|x rest IH]; intros pre; simpl.
  - by rewrite app_nil_r.
  - unfold insertAll in IH |- *. simpl. rewrite IH, insertLast_Permutation.
    by rewrite <- app_assoc.
Qed.

Lemma insertAll_Sorted rest pre :
  Sorted bySize pre → Sorted bySize (insertAll pre rest).
Proof.
  revert pre. induction rest as [|x rest IH]; intros pre Hpre; simpl; [done |].
  apply IH. by apply insertLast_Sorted.
Qed.

#[local] Instance bySize_transitive : Transitive bySize.
Proof. unfold bySize. intros a b c ? ?. lia. Qed.

(** C7. The ascending-by-size view is a stable sort: it returns (it never
    panics) a list in ascending order of size that is a rearrangement of
    the input, and for every size the devices of that size appear in the
    order they have in the input. Sizes 100, 50, 100, 10 give 10, 50, 100,
    100 with the first of the two devices of size 100 still before the
    second. *)
Theorem sortBySize_stable (ds : DiskSlice) :
  (∃ sorted,
     sortBySize ds = Returns sorted
     ∧ StronglySorted bySize sorted
     ∧ sorted ≡ₚ ds
     ∧ ∀ s, filter (ofSize s) sorted = filter (ofSize s) ds)
  ∧ sortBySize [mkDisk "sda" 100; mkDisk "sdb" 50; mkDisk "sdc" 100; mkDisk "sdd" 10]
    = Returns [mkDisk "sdd" 10; mkDisk "sdb" 50; mkDisk "sda" 100; mkDisk "sdc" 100].
Proof.
  split; [| reflexivity].
  exists (insertAll [] ds). split; [apply sortBySize_insertAll |].
  split; [apply Sorted_StronglySorted; [apply _ |]; apply insertAll_Sorted; constructor |].
  split; [apply insertAll_Permutation |].
  intros s. apply insertAll_filter.
Qed.

End ordering_facts.

(** * Further properties *)

(** ** Numerals *)

Section numeral_facts.
Local Open Scope Z_scope.

Lemma wrap_once x : 2 ^ 64 ≤ x < 2 * 2 ^ 64 → x mod 2 ^ 64 = x - 2 ^ 64.
Proof. intros Hx. symmetry. apply (Z.mod_unique x (2 ^ 64) 1); lia. Qed.

(** A successful run of the loop has read digits only, without overflow. *)
Lemma parseLoop_sound s0 s n v :
  0 ≤ n ≤ strconv.maxUint64 →
  strconv.parseLoop s0 s n = (v, None) →
  numerals.allDigits s = true ∧ v = numerals.decimal s n.
Proof.
  revert n. induction s as [|c s IH]; intros n Hn; cbn [strconv.parseLoop].
  - by intros [= <-].
  - simpl. destruct (strconv.isDigit c) eqn:Hc; [| done].
    pose proof (digit_range c Hc) as Hd. unfold numerals.digit in Hd |- *.
    destruct (strconv.cutoff <=? n) eqn:Hcut; [done |].
    apply Z.leb_gt in Hcut. unfold strconv.cutoff, strconv.maxUint64 in Hcut, Hn.
    change ((2 ^ 64 - 1) / 10 + 1) with 1844674407370955162 in Hcut.
    rewrite (Z.mod_small (n * 10)) by lia.
    set (d := Z.of_nat (nat_of_ascii c) - 48) in *.
    destruct (Z_lt_le_dec (n * 10 + d) (2 ^ 64)) as [Hfit | Hover].
    + rewrite (Z.mod_small (n * 10 + d)) by lia.
      destruct (n * 10 + d <? n * 10); [done |]. cbn [orb].
      destruct (strconv.maxUint64 <? n * 10 + d) eqn:E; [done |].
      intros Hrun. apply IH in Hrun; [done |].
      unfold strconv.maxUint64. lia.
    + replace ((n * 10 + d) mod 2 ^ 64) with (n * 10 + d - 2 ^ 64).
      * replace (n * 10 + d - 2 ^ 64 <? n * 10) with true; [done |].
        symmetry. apply Z.ltb_lt. lia.
      * symmetry. apply wrap_once. lia.
Qed.

(** Digits whose number exceeds 64 bits end in a range error. *)
Lemma parseLoop_range_error s0 s n :
  0 ≤ n ≤ strconv.maxUint64 → numerals.allDigits s = true →
  strconv.maxUint64 < numerals.decimal s n →
  strconv.parseLoop s0 s n
  = (strconv.maxUint64, Some (strconv.mkNumError "ParseUint" s0 strconv.ErrRange)).
Proof.
  revert n. induction s as [|c s IH]; intros n Hn; simpl.
  - intros _ ?. lia.
  - intros [Hc Hs]%andb_prop Hbig. rewrite Hc.
    pose proof (digit_range c Hc) as Hd. unfold numerals.digit in Hd, Hbig.
    destruct (strconv.cutoff <=? n) eqn:Hcut; [done |].
    apply Z.leb_gt in Hcut. unfold strconv.cutoff, strconv.maxUint64 in Hcut, Hn.
    change ((2 ^ 64 - 1) / 10 + 1) with 1844674407370955162 in Hcut.
    rewrite (Z.mod_small (n * 10)) by lia.
    set (d := Z.of_nat (nat_of_ascii c) - 48) in *.
    destruct (Z_lt_le_dec (n * 10 + d) (2 ^ 64)) as [Hfit | Hover].
    + rewrite (Z.mod_small (n * 10 + d)) by lia.
      destruct (n * 10 + d <? n * 10); [done |]. cbn [orb].
      destruct (strconv.maxUint64 <? n * 10 + d) eqn:E; [done |].
      apply IH; [| done | done]. apply Z.ltb_ge in E. lia.
    + replace ((n * 10 + d) mod 2 ^ 64) with (n * 10 + d - 2 ^ 64).
      * replace (n * 10 + d - 2 ^ 64 <? n * 10) with true; [done |].
        symmetry. apply Z.ltb_lt. lia.
      * symmetry. apply wrap_once. lia.
Qed.

(** A byte that is no digit ends the loop in an error about the string. *)
Lemma parseLoop_not_digits s0 s n :
  numerals.allDigits s = false →
  ∃ v e, strconv.parseLoop s0 s n = (v, Some e) ∧ strconv.Num e = s0.
Proof.
  revert n. induction s as [|c s IH]; intros n; simpl; [done |].
  destruct (strconv.isDigit c); [| eauto]. cbn [andb]. intros Hs.
  destruct (strconv.cutoff <=? n); [eauto |].
  destruct (_ || _); [eauto |]. by apply IH.
Qed.

(** [ParseUint] succeeds exactly on the numerals of 64 bits, with their
    value. *)
Lemma ParseUint_numeral s v :
  strconv.ParseUint s = (v, None)
  ↔ notions.numeral64 s = true ∧ v = numerals.decimal s 0.
Proof.
  unfold notions.numeral64. split.
  - intros Hrun. pose proof (ParseUint_range _ _ Hrun) as Hv.
    unfold strconv.ParseUint in Hrun.
    destruct (String.eqb s EmptyString); [done |].
    apply parseLoop_sound in Hrun as [Hd ->]; [| unfold strconv.maxUint64; lia].
    rewrite Hd. split; [| done]. cbn [negb andb]. apply Z.leb_le. lia.
  - intros [[[Hne Hd]%andb_prop Hmax]%andb_prop ->].
    apply ParseUint_decimal; [| done | by apply Z.leb_le].
    intros ->. done.
Qed.

(** On every other string [ParseUint] returns a number error about that
    string. *)
Lemma ParseUint_rejects s :
  notions.numeral64 s = false →
  ∃ v e, strconv.ParseUint s = (v, Some e) ∧ strconv.Num e = s.
Proof.
  unfold notions.numeral64, strconv.ParseUint.
  destruct (String.eqb s EmptyString) eqn:Hempty; [eauto |]. cbn [negb andb].
  destruct (numerals.allDigits s) eqn:Hd; cbn [andb].
  - intros Hmax%Z.leb_gt.
    rewrite parseLoop_range_error; [eauto | | done | done].
    unfold strconv.maxUint64. lia.
  - intros _. by apply parseLoop_not_digits.
Qed.

End numeral_facts.

(** ** Paths, again *)

Section base_facts.
Import blockdevice.
Implicit Types (s t : string) (c a : ascii).

Lemma LastIndexByte_none_index s c :
  gostrings.LastIndexByte s c = None → gostrings.IndexByte s c = None.
Proof.
  induction s as [|a s IH]; simpl; [done |].
  destruct (gostrings.LastIndexByte s c); [done |].
  destruct (Ascii.eqb a c); [done |]. intros _. by rewrite IH.
Qed.

Lemma from_last_without s c i :
  gostrings.LastIndexByte s c = Some i →
  gostrings.IndexByte (gostrings.from (S i) s) c = None.
Proof.
  revert i. induction s as [|a s IH]; intros i; simpl; [done |].
  destruct (gostrings.LastIndexByte s c) as [j|] eqn:E.
  - intros [= <-]. by apply IH.
  - destruct (Ascii.eqb a c); [| done]. intros [= <-].
    destruct s; [done |]. by apply LastIndexByte_none_index.
Qed.

(** A base is the root or a bare name. *)
Lemma Base_shape path :
  gopath.Base path = "/"%string ∨ rules.bareName (gopath.Base path).
Proof.
  unfold gopath.Base.
  destruct (String.eqb path EmptyString); [right; by split |].
  set (t := gostrings.TrimRight path slash).
  destruct (gostrings.LastIndexByte t slash) as [i|] eqn:E.
  - destruct (String.eqb_spec (gostrings.from (S i) t) EmptyString) as [_|Hne];
      [by left | right].
    split; [done | by apply from_last_without].
  - destruct (String.eqb_spec t EmptyString) as [_|Hne]; [by left | right].
    split; [done | by apply LastIndexByte_none_index].
Qed.

(** Taking the base twice is taking it once. *)
Lemma Base_idempotent path : gopath.Base (gopath.Base path) = gopath.Base path.
Proof.
  destruct (Base_shape path) as [-> | Hbare]; [done | by apply Base_bare].
Qed.

(** The base of a device name is the name of the disk, for a bare name. *)
Lemma Base_DeviceName (d : Disk) :
  rules.bareName (Name d) → gopath.Base (DeviceName d) = Name d.
Proof. intros Hbare. apply (Base_prefixed "/dev" _ Hbare). Qed.

End base_facts.

(** ** Discovery and construction, in full *)

Section construction_cases.
Import block rules.
Variable fs : goos.FS.

(** Discovery has two outcomes: the type of the rules without an error,
    or the unknown type with the error that names the entry. *)
Lemma discover_cases entry :
  (consultedDeterminate fs entry
   ∧ discoverDeviceType fs entry =
       (classify (isPresent (mdMarker fs entry)) (isPresent (dmMarker fs entry))
          (isPresent (deviceMarker fs entry)), None))
  ∨ (consultedIndeterminate fs entry
     ∧ discoverDeviceType fs entry =
         (TypeUnknown,
          Some (Errorf ("failed to discover device type for " +:+ entry)))).
Proof.
  assert (consultedDeterminate fs entry ∨ consultedIndeterminate fs entry) as [H|H].
  { unfold consultedDeterminate, consultedIndeterminate.
    destruct (mdMarker fs entry); [by left | | right; left; eauto].
    destruct (dmMarker fs entry); [by left | | right; right; left; eauto].
    destruct (deviceMarker fs entry); [by left | by left |].
    right; right; right; eauto. }
  - left. split; [done | by apply discover_classify].
  - right. split; [done | by apply discover_indeterminate].
Qed.

Lemma determinate_not_indeterminate entry :
  consultedDeterminate fs entry → ¬ consultedIndeterminate fs entry.
Proof.
  unfold consultedDeterminate, consultedIndeterminate.
  intros Hd [[e H1] | [[H1 [e H2]] | (H1 & H2 & [e H3])]].
  - by rewrite H1 in Hd.
  - by rewrite H1, H2 in Hd.
  - by rewrite H1, H2, H3 in Hd.
Qed.

Lemma NewDevice_invariant devicePath d :
  NewDevice fs devicePath = (Some d, None) →
  Name d = gopath.Base devicePath
  ∧ (0 ≤ Size d < 2 ^ 64)%Z ∧ (Size d mod 512 = 0)%Z.
Proof.
  unfold NewDevice.
  destruct (goos.IsNotExist _); [done |].
  destruct (goos.ReadFile fs _) as [content [err|]]; [done |].
  destruct (strconv.ParseUint _) as [s [err|]]; [done |].
  destruct (discoverDeviceType fs _) as [typ [err|]]; [done |].
  intros [= <-]. cbn [Name Size]. split; [done |].
  split; [by apply Z.mod_pos_bound | apply sectors_wrap_multiple].
Qed.

Lemma NewDisk_Name diskPath k :
  blockdevice.NewDisk fs diskPath = (Some k, None) →
  blockdevice.Name k = gopath.Base diskPath.
Proof.
  unfold blockdevice.NewDisk.
  destruct (goos.IsNotExist _); [done |].
  destruct (goos.ReadFile fs _) as [content [err|]]; [done |].
  destruct (strconv.ParseUint _) as [s [err|]]; [done |].
  by intros [= <-].
Qed.

(** The kind of an error is that of the error it gives context to. *)
Lemma kindOf_Wrap err msg : taxonomy.kindOf (Wrap err msg) = taxonomy.kindOf err.
Proof. reflexivity. Qed.


End construction_cases.

Section construction_properties.
Import block rules.
Local Open Scope Z_scope.

(** X1. Type discovery fails exactly when a marker it consults can be
    neither found nor found missing; it then returns the unknown type
    and the error that names the entry, which does not hold the error of
    the stat. *)
Theorem discoverDeviceType_error_iff (fs : goos.FS) (entry : string)
    (typ : Type') (err : error) :
  discoverDeviceType fs entry = (typ, Some err)
  ↔ consultedIndeterminate fs entry
    ∧ typ = TypeUnknown
    ∧ err = Errorf ("failed to discover device type for " +:+ entry).
Proof.
  split.
  - destruct (discover_cases fs entry) as [[_ ->] | [Hind ->]]; [done |].
    by intros [= <- <-].
  - intros (Hind & -> & ->). by apply discover_indeterminate.
Qed.

Lemma discoverDeviceType_error_iff_witness :
  discoverDeviceType fixture.hostDenied "/sys/block/sda"
  = (TypeUnknown, Some (Errorf "failed to discover device type for /sys/block/sda")).
Proof.
  apply (discoverDeviceType_error_iff fixture.hostDenied "/sys/block/sda").
  split; [| split; reflexivity].
  right. left. split; [reflexivity |]. eexists. reflexivity.
Defined.

(** X2. [NewDevice] returns a device exactly when the entry exists, the
    size marker is read, its text without the newlines around it is a
    decimal numeral of 64 bits and every consulted marker is present or
    absent; the device then has the base of the path as its name, the
    numeral times 512 modulo [2^64] as its size and the type of the
    rules. *)
Theorem NewDevice_succeeds_iff (fs : goos.FS) (devicePath : string) (d : Device) :
  NewDevice fs devicePath = (Some d, None)
  ↔ goos.IsNotExist (goos.Stat fs (entryOf (gopath.Base devicePath))) = false
    ∧ ∃ content,
        goos.ReadFile fs (sizeMarkerOf (gopath.Base devicePath)) = (content, None)
        ∧ notions.numeral64 (gostrings.Trim content LF) = true
        ∧ consultedDeterminate fs (entryOf (gopath.Base devicePath))
        ∧ d = mkDevice (gopath.Base devicePath)
                ((numerals.decimal (gostrings.Trim content LF) 0 * 512) mod 2 ^ 64)
                (classify
                   (isPresent (mdMarker fs (entryOf (gopath.Base devicePath))))
                   (isPresent (dmMarker fs (entryOf (gopath.Base devicePath))))
                   (isPresent (deviceMarker fs (entryOf (gopath.Base devicePath))))).
Proof.
  split.
  - unfold NewDevice, sizeMarkerOf. fold (entryOf (gopath.Base devicePath)).
    destruct (goos.IsNotExist _); [done |].
    destruct (goos.ReadFile fs _) as [content [e|]]; [done |].
    destruct (strconv.ParseUint _) as [s [e|]] eqn:Hparse; [done |].
    apply ParseUint_numeral in Hparse as [Hnum ->].
    destruct (discover_cases fs (entryOf (gopath.Base devicePath)))
      as [[Hdet ->] | [_ ->]]; [| done].
    intros [= <-]. split; [done |]. by exists content.
  - intros (Hentry & content & Hread & Hnum & Hdet & ->).
    apply (NewDevice_built fs devicePath content); try done.
    + by apply ParseUint_numeral.
    + by apply discover_classify.
Qed.

Lemma NewDevice_succeeds_iff_witness :
  NewDevice fixture.host "/dev/md0" = (Some (mkDevice "md0" 1048576 TypeRAID), None).
Proof.
  apply (NewDevice_succeeds_iff fixture.host "/dev/md0").
  split; [reflexivity |]. exists (fixture.line "2048").
  split; [reflexivity |]. split; [reflexivity |]. split; [exact I | reflexivity].
Defined.



End construction_properties.

(** ** The text of the size marker *)

Section size_text.
Import block rules.
Local Open Scope Z_scope.
#[local] Existing Instance blockdevice.Disk_BlockDevicer.

Lemma digit_not_LF c : strconv.isDigit c = true → Ascii.eqb c LF = false.
Proof.
  intros Hc. destruct (Ascii.eqb_spec c LF) as [-> |]; [| done].
  by vm_compute in Hc.
Qed.

Lemma allDigits_without_LF s :
  numerals.allDigits s = true → gostrings.IndexByte s LF = None.
Proof.
  induction s as [|c s IH]; simpl; [done |].
  intros [Hc Hs]%andb_prop. by rewrite (digit_not_LF c Hc), (IH Hs).
Qed.

Lemma TrimLeft_newlines a t :
  gostrings.TrimLeft (notions.newlines a +:+ t) LF = gostrings.TrimLeft t LF.
Proof. induction a as [|a IH]; [done |]. exact IH. Qed.

Lemma TrimRight_only_newlines b :
  gostrings.TrimRight (notions.newlines b) LF = EmptyString.
Proof. induction b as [|b IH]; [done |]. simpl. by rewrite IH. Qed.

Lemma TrimRight_newlines s b :
  gostrings.TrimRight (s +:+ notions.newlines b) LF = gostrings.TrimRight s LF.
Proof.
  induction s as [|c s IH]; rewrite ?append_cons, ?append_nil.
  - apply TrimRight_only_newlines.
  - simpl. by rewrite IH.
Qed.

(** Newlines around a numeral are trimmed, however many. *)
Lemma Trim_padded a b s :
  notions.numeral64 s = true →
  gostrings.Trim (notions.newlines a +:+ s +:+ notions.newlines b) LF = s.
Proof.
  unfold notions.numeral64, gostrings.Trim.
  intros [[Hne Hd]%andb_prop _]%andb_prop.
  rewrite TrimLeft_newlines. destruct s as [|c s]; [done |].
  pose proof Hd as Hds. simpl in Hd. apply andb_prop in Hd as [Hc _].
  rewrite append_cons. cbn [gostrings.TrimLeft]. rewrite (digit_not_LF c Hc).
  rewrite <- append_cons, TrimRight_newlines.
  by apply TrimRight_without, allDigits_without_LF.
Qed.

(** X4. A size marker whose text, without the newlines around it, is no
    decimal numeral of 64 bits (empty, signed, with a letter or a blank,
    too large) makes [NewDevice] and [NewDisk] fail with the number error
    of that text, of kind parse; the markers of the type play no part. *)
Theorem NewDevice_rejects_size (fs : goos.FS) (devicePath content : string) :
  goos.IsNotExist (goos.Stat fs (entryOf (gopath.Base devicePath))) = false →
  goos.ReadFile fs (sizeMarkerOf (gopath.Base devicePath)) = (content, None) →
  notions.numeral64 (gostrings.Trim content LF) = false →
  ∃ e, strconv.Num e = gostrings.Trim content LF
       ∧ NewDevice fs devicePath
         = (None, Some (Wrap (ENum e) "failed to parse device size"))
       ∧ blockdevice.NewDisk fs devicePath
         = (None, Some (Wrap (ENum e) "failed to parse device size"))
       ∧ taxonomy.kindOf (Wrap (ENum e) "failed to parse device size")
         = Some taxonomy.ParseError.
Proof.
  intros Hentry Hread Hnum.
  destruct (ParseUint_rejects _ Hnum) as (v & e & Hparse & Hnum').
  exists e. split; [done |].
  split; [by eapply NewDevice_unparsable |]. split; [| done].
  revert Hentry Hread Hparse.
  unfold blockdevice.NewDisk, sizeMarkerOf, entryOf, sysfsBlockRoot,
    blockdevice.sysfsBlockRoot.
  by intros -> -> ->.
Qed.

Lemma NewDevice_rejects_size_witness :
  (∃ e, strconv.Num e = "12x"%string
        ∧ NewDevice samples.hostOdd "sdq"
          = (None, Some (Wrap (ENum e) "failed to parse device size")))
  ∧ (∃ e, strconv.Num e = "-1"%string
          ∧ NewDevice samples.hostOdd "sdt"
            = (None, Some (Wrap (ENum e) "failed to parse device size")))
  ∧ (∃ e, strconv.Num e = "18446744073709551616"%string
          ∧ NewDevice samples.hostOdd "sdu"
            = (None, Some (Wrap (ENum e) "failed to parse device size"))).
Proof.
  destruct (NewDevice_rejects_size samples.hostOdd "sdq" (fixture.line "12x")
              eq_refl eq_refl eq_refl) as (e & Hn & He & _).
  destruct (NewDevice_rejects_size samples.hostOdd "sdt" (fixture.line "-1")
              eq_refl eq_refl eq_refl) as (e1 & Hn1 & He1 & _).
  destruct (NewDevice_rejects_size samples.hostOdd "sdu"
              (fixture.line "18446744073709551616")
              eq_refl eq_refl eq_refl) as (e2 & Hn2 & He2 & _).
  split; [by exists e |]. split; [by exists e1 | by exists e2].
Defined.

(** X5. Newlines before and after the numeral of the size marker, however
    many, change nothing: the device has the size of the numeral. *)
Theorem NewDevice_size_padded (fs : goos.FS) (devicePath s : string)
    (a b : nat) (typ : Type') :
  goos.IsNotExist (goos.Stat fs (entryOf (gopath.Base devicePath))) = false →
  notions.numeral64 s = true →
  goos.ReadFile fs (sizeMarkerOf (gopath.Base devicePath))
  = (notions.newlines a +:+ s +:+ notions.newlines b, None) →
  discoverDeviceType fs (entryOf (gopath.Base devicePath)) = (typ, None) →
  NewDevice fs devicePath
  = (Some (mkDevice (gopath.Base devicePath)
             ((numerals.decimal s 0 * 512) mod 2 ^ 64) typ), None).
Proof.
  intros Hentry Hnum Hread Htyp.
  apply (NewDevice_built fs devicePath _ _ typ Hentry Hread); [| done].
  rewrite (Trim_padded a b s Hnum). by apply ParseUint_numeral.
Qed.

Lemma NewDevice_size_padded_witness :
  NewDevice samples.hostOdd "/dev/sds" = (Some (mkDevice "sds" 21504 TypeDisk), None).
Proof.
  exact (NewDevice_size_padded samples.hostOdd "/dev/sds" "42" 2 3 TypeDisk
           eq_refl eq_refl eq_refl eq_refl).
Defined.

(** X6. [NewDisk] and [NewDevice] agree on a path: a device of
    [NewDevice] is the disk of [NewDisk] with a type; an error of
    [NewDisk] is the error of [NewDevice]; when [NewDisk] returns a disk,
    [NewDevice] returns that disk with its type or fails on a marker that
    cannot be examined. *)
Theorem NewDisk_agrees_with_NewDevice (fs : goos.FS) (path : string) :
  (∀ d, NewDevice fs path = (Some d, None) →
        blockdevice.NewDisk fs path = (Some (notions.diskOf d), None))
  ∧ (∀ x err, blockdevice.NewDisk fs path = (x, Some err) →
        x = None ∧ NewDevice fs path = (None, Some err))
  ∧ (∀ k, blockdevice.NewDisk fs path = (Some k, None) →
        (∃ d, NewDevice fs path = (Some d, None) ∧ notions.diskOf d = k)
        ∨ (consultedIndeterminate fs (entryOf (gopath.Base path))
           ∧ NewDevice fs path
             = (None, Some (Wrap (Errorf ("failed to discover device type for "
                                          +:+ entryOf (gopath.Base path)))
                              "failed to parse device size")))).
Proof.
  unfold NewDevice, blockdevice.NewDisk, sysfsBlockRoot, blockdevice.sysfsBlockRoot.
  fold sysfsBlockRoot. fold (entryOf (gopath.Base path)).
  destruct (goos.IsNotExist _).
  { split; [done |]. split; [| done]. by intros x err [= <- <-]. }
  destruct (goos.ReadFile fs _) as [content [e|]].
  { split; [done |]. split; [| done]. by intros x err [= <- <-]. }
  destruct (strconv.ParseUint _) as [s [e|]].
  { split; [done |]. split; [| done]. by intros x err [= <- <-]. }
  destruct (discover_cases fs (entryOf (gopath.Base path)))
    as [[_ ->] | [Hind ->]].
  - split; [by intros d [= <-] |]. split; [done |].
    intros k [= <-]. left. by eexists.
  - split; [done |]. split; [done |]. intros k _. by right.
Qed.

Lemma NewDisk_agrees_with_NewDevice_witness :
  blockdevice.NewDisk fixture.host "/dev/md0"
  = (Some (blockdevice.mkDisk "md0" 1048576), None)
  ∧ NewDevice fixture.host "nope"
    = (None, Some (Errorf "device /sys/block/nope does not exist")).
Proof.
  split.
  - exact (proj1 (NewDisk_agrees_with_NewDevice fixture.host "/dev/md0")
             (mkDevice "md0" 1048576 TypeRAID) eq_refl).
  - exact (proj2 (proj1 (proj2 (NewDisk_agrees_with_NewDevice fixture.host "nope"))
             None _ eq_refl)).
Defined.

(** X7. A device is found again under its own name, and a disk under its
    name and, when the name is not the root, under its device name: the
    construction from the name of the result gives the same result. *)
Theorem NewDevice_by_own_name (fs : goos.FS) (path : string) :
  (∀ d, NewDevice fs path = (Some d, None) →
        NewDevice fs (Name d) = (Some d, None))
  ∧ (∀ k, blockdevice.NewDisk fs path = (Some k, None) →
        blockdevice.NewDisk fs (blockdevice.Name k) = (Some k, None)
        ∧ (blockdevice.Name k ≠ "/"%string →
           blockdevice.NewDisk fs (blockdevice.DeviceName k) = (Some k, None))).
Proof.
  split.
  - intros d Hd. rewrite <- Hd. apply NewDevice_Base.
    rewrite (NewDevice_Name fs _ _ Hd). apply Base_idempotent.
  - intros k Hk. pose proof (NewDisk_Name fs _ _ Hk) as Hname. split.
    + rewrite <- Hk. apply NewDisk_Base. rewrite Hname. apply Base_idempotent.
    + intros Hroot. rewrite <- Hk. apply NewDisk_Base.
      destruct (Base_shape path) as [Hb | Hb]; [congruence |].
      rewrite <- Hname in Hb. rewrite (Base_DeviceName k Hb). done.
Qed.

Lemma NewDevice_by_own_name_witness :
  blockdevice.NewDisk fixture.host "/dev/sda"
  = (Some (blockdevice.mkDisk "sda" 512000), None)
  ∧ NewDevice fixture.host "md0" = (Some (mkDevice "md0" 1048576 TypeRAID), None).
Proof.
  destruct (NewDevice_by_own_name fixture.host "/some/where/sda") as [_ Hdisk].
  destruct (NewDevice_by_own_name fixture.host "/dev/md0") as [Hdev _].
  split.
  - apply (Hdisk (blockdevice.mkDisk "sda" 512000) eq_refl). discriminate.
  - exact (Hdev (mkDevice "md0" 1048576 TypeRAID) eq_refl).
Defined.

End size_text.

(** ** Bulk construction, in full *)

Section bulk_cases.
Import block registry.
Variable fs : goos.FS.
#[local] Existing Instance blockdevice.Disk_BlockDevicer.

(** The devices of a successful bulk construction are those of the
    names, one by one. *)
Lemma NewDevicesFromPaths_inv paths ds :
  NewDevicesFromPaths fs paths = Returns (Some ds, None) →
  Forall2 (constructs fs) paths ds.
Proof.
  unfold NewDevicesFromPaths.
  destruct (paths_split fs paths)
    as [[ds' Hds] | (before & q & after & ds' & err & -> & Hds & Hq)].
  - rewrite (loop_all fs _ _ [] Hds). by intros [= <-].
  - by rewrite (loop_first_failure fs _ _ _ _ _ [] Hds Hq).
Qed.

Lemma disk_paths_split paths :
  (∃ ds, Forall2 (constructsDisk fs) paths ds)
  ∨ (∃ before p after ds err,
       paths = before ++ p :: after ∧ Forall2 (constructsDisk fs) before ds
       ∧ diskFailsWith fs p err).
Proof.
  induction paths as [|p paths IH].
  - left. exists []. constructor.
  - destruct (NewDisk_either fs p) as [[d Hd] | [err Herr]].
    + destruct IH as [[ds Hds] | (before & q & after & ds & err & -> & Hds & Hq)].
      * left. exists (d :: ds). by constructor.
      * right. exists (p :: before), q, after, (d :: ds), err.
        split; [done |]. split; [by constructor | done].
    + right. exists [], p, paths, [], err.
      split; [done |]. split; [constructor | by eexists].
Qed.

Lemma NewDiskSliceFromPaths_inv paths ds :
  blockdevice.NewDiskSliceFromPaths fs paths = Returns (Some ds, None) →
  Forall2 (constructsDisk fs) paths ds.
Proof.
  unfold blockdevice.NewDiskSliceFromPaths.
  destruct (disk_paths_split paths)
    as [[ds' Hds] | (before & q & after & ds' & err & -> & Hds & Hq)].
  - rewrite (disk_loop_all fs _ _ [] Hds). by intros [= <-].
  - by rewrite (disk_loop_first_failure fs _ _ _ _ _ [] Hds Hq).
Qed.

Lemma NewDisk_again path k :
  blockdevice.NewDisk fs path = (Some k, None) →
  blockdevice.NewDisk fs (blockdevice.Name k) = (Some k, None)
  ∧ (blockdevice.Name k ≠ "/"%string →
     blockdevice.NewDisk fs (blockdevice.DeviceName k) = (Some k, None)).
Proof.
  intros Hk. pose proof (NewDisk_Name fs _ _ Hk) as Hname. split.
  - rewrite <- Hk. apply NewDisk_Base. rewrite Hname. apply Base_idempotent.
  - intros Hroot. rewrite <- Hk. apply NewDisk_Base.
    destruct (Base_shape path) as [Hb | Hb]; [congruence |].
    rewrite <- Hname in Hb. by rewrite (Base_DeviceName k Hb).
Qed.

End bulk_cases.

Section bulk_properties.
Import block registry.
Local Open Scope Z_scope.
#[local] Existing Instance blockdevice.Disk_BlockDevicer.

(** X8. The collection of a successful bulk construction has one device
    per name, at the place of the name: the device that [NewDevice]
    builds for that name, named by the base of the name, with a size
    below [2^64] that is a multiple of 512. *)
Theorem NewDevicesFromPaths_devices (fs : goos.FS) (paths : list string)
    (ds : list Device) :
  NewDevicesFromPaths fs paths = Returns (Some ds, None) →
  length ds = length paths
  ∧ map Name ds = map gopath.Base paths
  ∧ ∀ (i : nat) p d, paths !! i = Some p → ds !! i = Some d →
      NewDevice fs p = (Some d, None)
      ∧ 0 ≤ Size d < 2 ^ 64 ∧ Size d mod 512 = 0.
Proof.
  intros Hall%NewDevicesFromPaths_inv.
  split; [symmetry; by eapply Forall2_length |]. split.
  - induction Hall as [|p d paths ds Hp _ IH]; [done |]. simpl.
    by rewrite IH, (NewDevice_Name fs p d Hp).
  - intros i p d Hp Hd.
    pose proof (Forall2_lookup_lr _ _ _ _ _ _ Hall Hp Hd) as Hpd.
    split; [done |]. by destruct (NewDevice_invariant fs p d Hpd) as (_ & ? & ?).
Qed.

Lemma NewDevicesFromPaths_devices_witness :
  map Name [mkDevice "sda" 512000 TypeDisk; mkDevice "loop0" 4096 TypeUnknown]
  = map gopath.Base ["/dev/sda"; "loop0"]%string.
Proof.
  exact (proj1 (proj2 (NewDevicesFromPaths_devices fixture.host
           ["/dev/sda"; "loop0"]%string
           [mkDevice "sda" 512000 TypeDisk; mkDevice "loop0" 4096 TypeUnknown]
           eq_refl))).
Defined.

(** X9. Listing the devices of the system never panics and returns the
    devices or no collection and an error, never both. A root that cannot
    be opened, or cannot be listed, gives the path error in the context
    of that step. Otherwise the names of the root are constructed in the
    order of the listing: either all of them, and the devices are
    returned (carrying the names of the root when these are bare names),
    or the names before some name are constructed and that name fails,
    and the error returned is the error of that name in the context
    "failed to create disk". *)
Theorem ListDevices_outcomes (fs : goos.FS) :
  (∀ e, goos.Open fs sysfsBlockRoot = Some e →
     ListDevices fs
     = Returns (None, Some (Wrap (EPath e) "failed to open /sys/block")))
  ∧ (∀ names e, goos.Open fs sysfsBlockRoot = None →
       goos.Readdirnames fs sysfsBlockRoot = (names, Some e) →
       ListDevices fs
       = Returns (None, Some (Wrap (EPath e) "failed to read directory /sys/block")))
  ∧ (∀ names, goos.Open fs sysfsBlockRoot = None →
       goos.Readdirnames fs sysfsBlockRoot = (names, None) →
       (∃ ds, Forall2 (constructs fs) names ds
              ∧ ListDevices fs = Returns (Some ds, None)
              ∧ (Forall rules.bareName names → map Name ds = names))
       ∨ (∃ before q after ds err,
            names = before ++ q :: after
            ∧ Forall2 (constructs fs) before ds
            ∧ failsWith fs q err
            ∧ ListDevices fs
              = Returns (None, Some (Wrap err "failed to create disk"))))
  ∧ ((∃ ds, ListDevices fs = Returns (Some ds, None))
     ∨ (∃ err, ListDevices fs = Returns (None, Some err))).
Proof.
  unfold ListDevices.
  destruct (goos.Open fs sysfsBlockRoot) as [e|].
  { split; [by intros ? [= <-] |]. split; [done |]. split; [done |].
    right. by eexists. }
  destruct (goos.Readdirnames fs sysfsBlockRoot) as [names [e|]].
  { split; [done |]. split; [by intros ? ? _ [= <- <-] |]. split; [done |].
    right. by eexists. }
  split; [done |]. split; [done |].
  assert ((∃ ds, Forall2 (constructs fs) names ds
                 ∧ NewDevicesFromPaths fs names = Returns (Some ds, None)
                 ∧ (Forall rules.bareName names → map Name ds = names))
          ∨ (∃ before q after ds err,
               names = before ++ q :: after
               ∧ Forall2 (constructs fs) before ds
               ∧ failsWith fs q err
               ∧ NewDevicesFromPaths fs names
                 = Returns (None, Some (Wrap err "failed to create disk"))))
    as Hcases.
  { unfold NewDevicesFromPaths.
    destruct (paths_split fs names)
      as [[ds Hds] | (before & q & after & ds & err & -> & Hds & Hq)].
    - left. exists ds. split; [done |].
      split; [by rewrite (loop_all fs _ _ [] Hds) |].
      intros Hbare. clear -Hds Hbare.
      induction Hds as [|p d names ds Hp _ IH]; [done |].
      apply Forall_cons in Hbare as [Hp' Hbare]. simpl.
      by rewrite (IH Hbare), (NewDevice_Name fs p d Hp), (Base_bare p Hp').
    - right. exists before, q, after, ds, err. split; [done |].
      split; [done |]. split; [done |].
      by rewrite (loop_first_failure fs _ _ _ _ _ [] Hds Hq). }
  split.
  - by intros ? _ [= <-].
  - destruct Hcases as [(ds & _ & -> & _) | (? & ? & ? & ? & err & _ & _ & _ & ->)];
      [left | right]; by eexists.
Qed.

(** X10. Bulk construction of two lists in a row: when the first list
    fails, the result is its failure and the second list plays no part;
    when the first list succeeds, the result is the failure of the
    second, or the devices of the first followed by those of the
    second. *)
Theorem NewDevicesFromPaths_app (fs : goos.FS) (first second : list string) :
  NewDevicesFromPaths fs (first ++ second) =
    match NewDevicesFromPaths fs first with
    | Returns (Some ds1, None) =>
        match NewDevicesFromPaths fs second with
        | Returns (Some ds2, None) => Returns (Some (ds1 ++ ds2), None)
        | failure => failure
        end
    | failure => failure
    end.
Proof.
  unfold NewDevicesFromPaths.
  destruct (paths_split fs first)
    as [[ds1 H1] | (before & q & after & ds & err & -> & Hds & Hq)].
  - rewrite (loop_all fs _ _ [] H1). simpl.
    destruct (paths_split fs second)
      as [[ds2 H2] | (before & q & after & ds & err & -> & Hds & Hq)].
    + rewrite (loop_all fs _ _ [] H2). simpl.
      apply (loop_all fs _ _ []). by apply Forall2_app.
    + rewrite (loop_first_failure fs _ _ _ _ _ [] Hds Hq).
      rewrite app_assoc.
      apply (loop_first_failure fs _ _ _ (ds1 ++ ds) _ []); [| done].
      by apply Forall2_app.
  - rewrite (loop_first_failure fs _ _ _ _ _ [] Hds Hq).
    rewrite <- app_assoc. simpl.
    by apply (loop_first_failure fs _ _ _ ds).
Qed.

(** X11. A disk slice is found again from its own rendering: the bulk
    construction from the names of the disks, and from their device
    names when no name is the root, returns the same slice. *)
Theorem NewDiskSliceFromPaths_own_names (fs : goos.FS) (paths : list string)
    (ds : blockdevice.DiskSlice) :
  blockdevice.NewDiskSliceFromPaths fs paths = Returns (Some ds, None) →
  blockdevice.NewDiskSliceFromPaths fs (map blockdevice.Name ds)
  = Returns (Some ds, None)
  ∧ (Forall (λ k, blockdevice.Name k ≠ "/"%string) ds →
     blockdevice.NewDiskSliceFromPaths fs (blockdevice.StringSlice ds)
     = Returns (Some ds, None)).
Proof.
  intros Hall%NewDiskSliceFromPaths_inv. split.
  - apply (disk_loop_all fs _ _ []).
    induction Hall as [|p k paths ds Hp _ IH]; constructor; [| done].
    by apply (NewDisk_again fs p k).
  - intros Hroot. apply (disk_loop_all fs _ _ []).
    unfold blockdevice.StringSlice.
    induction Hall as [|p k paths ds Hp _ IH]; [constructor |].
    apply Forall_cons in Hroot as [Hk Hroot]. constructor; [| by apply IH].
    by apply (NewDisk_again fs p k).
Qed.

Lemma NewDiskSliceFromPaths_own_names_witness :
  blockdevice.NewDiskSliceFromPaths fixture.host ["/dev/sda"; "/dev/md0"]%string
  = Returns (Some [blockdevice.mkDisk "sda" 512000;
                   blockdevice.mkDisk "md0" 1048576], None).
Proof.
  refine (proj2 (NewDiskSliceFromPaths_own_names fixture.host
            ["/x/sda"; "md0"]%string
            [blockdevice.mkDisk "sda" 512000; blockdevice.mkDisk "md0" 1048576]
            eq_refl) _).
  repeat constructor; discriminate.
Defined.

End bulk_properties.

Lemma ListDevices_outcomes_witness :
  block.ListDevices samples.hostClosed
  = Returns (None, Some (Wrap (EPath (goos.mkPathError "open" "/sys/block" goos.EACCES))
                           "failed to open /sys/block"))
  ∧ block.ListDevices samples.hostUnlisted
    = Returns (None, Some (Wrap (EPath (goos.mkPathError "readdirent" "/sys/block"
                                          goos.ENOTDIR))
                             "failed to read directory /sys/block")).
Proof.
  split.
  - exact (proj1 (ListDevices_outcomes samples.hostClosed) _ eq_refl).
  - exact (proj1 (proj2 (ListDevices_outcomes samples.hostUnlisted)) [] _
             eq_refl eq_refl).
Defined.

(** ** The methods of a disk slice *)

Section slice_facts.
Import blockdevice.
Implicit Types (ds : DiskSlice) (a b x : Disk).

Lemma insert_Permutation_head (l : list Disk) j b x :
  l !! j = Some b → b :: <[j := x]> l ≡ₚ x :: l.
Proof.
  revert j. induction l as [|y l IH]; intros [|j]; simpl; try done.
  - intros [= ->]. apply Permutation_swap.
  - intros Hj. rewrite (Permutation_swap y b), (IH _ Hj). apply Permutation_swap.
Qed.

(** Writing each of two elements at the place of the other rearranges
    the list. *)
Lemma exchange_Permutation (l : list Disk) i j a b :
  l !! i = Some a → l !! j = Some b → <[j := a]> (<[i := b]> l) ≡ₚ l.
Proof.
  revert i j. induction l as [|y l IH]; intros [|i] [|j]; simpl; try done.
  - by intros [= ->] [= ->].
  - intros [= ->] Hj. by apply insert_Permutation_head.
  - intros Hi [= ->]. by apply insert_Permutation_head.
  - intros Hi Hj. by rewrite (IH _ _ Hi Hj).
Qed.

Lemma exchange_lookup (l : list Disk) i j a b k :
  l !! i = Some a → l !! j = Some b →
  <[j := a]> (<[i := b]> l) !! k =
    if decide (k = j) then Some a else if decide (k = i) then Some b else l !! k.
Proof.
  intros Hi Hj.
  pose proof (lookup_lt_Some _ _ _ Hi). pose proof (lookup_lt_Some _ _ _ Hj).
  destruct (decide (k = j)) as [-> | Hkj].
  - apply list_lookup_insert_eq. by rewrite length_insert.
  - rewrite list_lookup_insert_ne by done.
    destruct (decide (k = i)) as [-> | Hki].
    + by apply list_lookup_insert_eq.
    + by rewrite list_lookup_insert_ne.
Qed.

Lemma Swap_in_range (l : list Disk) (i j : nat) a b :
  l !! i = Some a → l !! j = Some b →
  Swap l (Z.of_nat i) (Z.of_nat j) = Returns (<[j := a]> (<[i := b]> l)).
Proof.
  unfold Swap. rewrite !index_of_nat, !Nat2Z.id. unfold DiskSlice.
  by intros -> ->.
Qed.

(** The index expression succeeds exactly in the range of the slice. *)
Lemma index_inRange (l : list Disk) (i : Z) :
  is_Some (index l i) ↔ notions.inRange l i.
Proof.
  unfold index, notions.inRange, Len.
  destruct (Z.ltb_spec i 0).
  - split; [by intros [? ?] | lia].
  - rewrite lookup_lt_is_Some. lia.
Qed.

Lemma index_out_of_range (l : list Disk) (i : Z) :
  index l i = None ↔ (i < 0 ∨ Z.of_nat (Len l) ≤ i)%Z.
Proof.
  rewrite eq_None_not_Some, index_inRange. unfold notions.inRange. lia.
Qed.

Lemma StringSlice_lookup ds (i : nat) :
  StringSlice ds !! i = DeviceName <$> ds !! i.
Proof.
  unfold StringSlice. revert i.
  induction ds as [|k ds IH]; intros [|i]; simpl; done.
Qed.

Lemma Split_without s c :
  gostrings.IndexByte s c = None → gostrings.Split s c = [s].
Proof.
  induction s as [|a s IH]; simpl; [done |].
  destruct (Ascii.eqb a c); [done |].
  destruct (gostrings.IndexByte s c); [done |]. intros _. by rewrite IH.
Qed.

Lemma Split_append s t c :
  gostrings.IndexByte s c = None →
  gostrings.Split (s +:+ String c t) c = s :: gostrings.Split t c.
Proof.
  induction s as [|a s IH]; rewrite ?append_cons, ?append_nil; simpl.
  - by rewrite Ascii.eqb_refl.
  - destruct (Ascii.eqb a c); [done |].
    destruct (gostrings.IndexByte s c); [done |]. intros _. by rewrite IH.
Qed.

(** Splitting a joined list gives the list back, when no element holds
    the separator. *)
Lemma Split_Join (elems : list string) c :
  elems ≠ [] → Forall (notions.without c) elems →
  gostrings.Split (gostrings.Join elems (String c EmptyString)) c = elems.
Proof.
  intros Hne Hall. induction Hall as [|e elems He Hall IH]; [done |].
  destruct elems as [|e' elems]; [by apply Split_without |].
  change (gostrings.Join (e :: e' :: elems) (String c EmptyString))
    with (e +:+ String c EmptyString +:+ gostrings.Join (e' :: elems) (String c EmptyString)).
  change (String c EmptyString +:+ ?t) with (String c t).
  rewrite (Split_append _ _ _ He). f_equal. by apply IH.
Qed.

Lemma Join_app (l1 l2 : list string) sep :
  l1 ≠ [] → l2 ≠ [] →
  gostrings.Join (l1 ++ l2) sep
  = gostrings.Join l1 sep +:+ sep +:+ gostrings.Join l2 sep.
Proof.
  intros H1 H2. induction l1 as [|e l1 IH]; [done |].
  destruct l1 as [|e' l1].
  - destruct l2; done.
  - change (gostrings.Join ((e :: e' :: l1) ++ l2) sep)
      with (e +:+ sep +:+ gostrings.Join ((e' :: l1) ++ l2) sep).
    rewrite IH by done.
    change (gostrings.Join (e :: e' :: l1) sep)
      with (e +:+ sep +:+ gostrings.Join (e' :: l1) sep).
    by rewrite !append_assoc.
Qed.

Lemma DeviceName_without_space k :
  notions.without notions.space (Name k) →
  notions.without notions.space (DeviceName k).
Proof.
  unfold notions.without, DeviceName, Disk_BlockDevicer.
  rewrite !append_cons, append_nil. simpl. by intros ->.
Qed.

End slice_facts.

Section slice_properties.
Import blockdevice.

(** X12. [Swap] on two indices in range returns the slice with the two
    disks exchanged and every other place as it was: a rearrangement of
    the same length, undone by the same swap. An index that is negative
    or not below the length panics. *)
Theorem Swap_exchanges (ds : DiskSlice) (i j : Z) :
  (notions.inRange ds i → notions.inRange ds j →
   ∃ ds', Swap ds i j = Returns ds'
          ∧ Len ds' = Len ds
          ∧ index ds' i = index ds j ∧ index ds' j = index ds i
          ∧ (∀ k, k ≠ i → k ≠ j → index ds' k = index ds k)
          ∧ ds' ≡ₚ ds
          ∧ Swap ds' i j = Returns ds)
  ∧ ((i < 0 ∨ Z.of_nat (Len ds) ≤ i ∨ j < 0 ∨ Z.of_nat (Len ds) ≤ j)%Z →
     Swap ds i j = Panics "index out of range").
Proof.
  split.
  - intros Hi Hj. unfold notions.inRange, Len in Hi, Hj.
    rewrite <- (Z2Nat.id i), <- (Z2Nat.id j) by lia.
    set (n := Z.to_nat i). set (m := Z.to_nat j).
    assert (n < length ds) as Hn by lia. assert (m < length ds) as Hm by lia.
    unfold DiskSlice in *.
    destruct (lookup_lt_is_Some_2 ds n Hn) as [a Ha].
    destruct (lookup_lt_is_Some_2 ds m Hm) as [b Hb].
    exists (<[m := a]> (<[n := b]> ds)).
    split; [by apply Swap_in_range |].
    split; [unfold Len; by rewrite !length_insert |].
    pose proof (λ k, exchange_lookup ds n m a b k Ha Hb) as Hlook.
    rewrite !index_of_nat.
    split; [| split; [| split; [| split]]].
    + rewrite Hlook, Hb. repeat case_decide; congruence.
    + rewrite Hlook, Ha. by case_decide.
    + intros k Hkn Hkm. unfold index. destruct (k <? 0)%Z eqn:Hk; [done |].
      apply Z.ltb_ge in Hk. rewrite Hlook.
      repeat case_decide; try done; exfalso.
      * apply Hkm. subst m. lia.
      * apply Hkn. subst n. lia.
    + by apply exchange_Permutation.
    + assert (<[m:=a]> (<[n:=b]> ds) !! n = Some b) as Hn'
        by (rewrite Hlook; repeat case_decide; congruence).
      assert (<[m:=a]> (<[n:=b]> ds) !! m = Some a) as Hm'
        by (rewrite Hlook; by case_decide).
      rewrite (Swap_in_range _ n m b a Hn' Hm'). f_equal.
      apply list_eq. intros k.
      rewrite (exchange_lookup _ n m b a k Hn' Hm'), Hlook.
      repeat case_decide; congruence.
  - intros Hout. unfold Swap.
    assert (index ds i = None ∨ index ds j = None) as [Hi | Hj]
      by (rewrite !index_out_of_range; lia).
    + rewrite Hi. by destruct (index ds j).
    + by rewrite Hj.
Qed.

Lemma Swap_exchanges_witness :
  ∃ ds', Swap [mkDisk "sda" 100; mkDisk "sdb" 50; mkDisk "sdc" 10] 0 2 = Returns ds'
         ∧ index ds' 0 = Some (mkDisk "sdc" 10)
         ∧ Swap [mkDisk "sda" 100] 0 1 = Panics "index out of range"
         ∧ Swap [mkDisk "sda" 100] (-1) 0 = Panics "index out of range".
Proof.
  destruct (Swap_exchanges [mkDisk "sda" 100; mkDisk "sdb" 50; mkDisk "sdc" 10] 0 2)
    as [Hin _].
  destruct (Hin ltac:(unfold notions.inRange; simpl; lia)
                ltac:(unfold notions.inRange; simpl; lia))
    as (ds' & Hswap & _ & H0 & _).
  destruct (Swap_exchanges [mkDisk "sda" 100] 0 1) as [_ Hout].
  destruct (Swap_exchanges [mkDisk "sda" 100] (-1) 0) as [_ Hneg].
  exists ds'. split; [exact Hswap |]. split; [exact H0 |].
  split; [apply Hout; simpl; lia | apply Hneg; lia].
Defined.

(** X13. [Less] is the strict order of sizes on the indices in range: no
    index is less than itself, two indices are never less than each
    other, the relation is transitive, and two indices of which neither
    is less than the other hold disks of the same size. It panics
    exactly when an index is negative or not below the length. *)
Theorem Less_strict_weak_order (ds : DiskSlice) :
  (∀ i, notions.inRange ds i → Less ds i i = Returns false)
  ∧ (∀ i j, Less ds i j = Returns true → Less ds j i = Returns false)
  ∧ (∀ i j k, Less ds i j = Returns true → Less ds j k = Returns true →
       Less ds i k = Returns true)
  ∧ (∀ i j, Less ds i j = Returns false ∧ Less ds j i = Returns false
            ↔ notions.sameSize ds i j)
  ∧ (∀ i j, (∃ msg, Less ds i j = Panics msg)
            ↔ (i < 0 ∨ Z.of_nat (Len ds) ≤ i ∨ j < 0 ∨ Z.of_nat (Len ds) ≤ j)%Z)
  ∧ (∀ i j, notions.inRange ds i → notions.inRange ds j →
            ∃ b, Less ds i j = Returns b).
Proof.
  unfold Less, notions.sameSize.
  split; [| split; [| split; [| split; [| split]]]].
  - intros i Hi. apply index_inRange in Hi as [a ->].
    by rewrite Z.ltb_irrefl.
  - intros i j. destruct (index ds i) as [a|], (index ds j) as [b|]; try done.
    intros [= H%Z.ltb_lt]. f_equal. apply Z.ltb_ge. lia.
  - intros i j k.
    destruct (index ds i) as [a|], (index ds j) as [b|], (index ds k) as [c|];
      try done.
    intros [= H1%Z.ltb_lt] [= H2%Z.ltb_lt]. f_equal. apply Z.ltb_lt. lia.
  - intros i j. destruct (index ds i) as [a|], (index ds j) as [b|].
    + split.
      * intros [[= H1%Z.ltb_ge] [= H2%Z.ltb_ge]]. exists a, b.
        split; [done |]. split; [done | lia].
      * intros (a' & b' & [= <-] & [= <-] & Heq).
        split; f_equal; apply Z.ltb_ge; lia.
    + split; [by intros [? _] | by intros (? & ? & _ & ? & _)].
    + split; [by intros [? _] | by intros (? & ? & ? & _)].
    + split; [by intros [? _] | by intros (? & ? & ? & _)].
  - intros i j.
    pose proof (index_out_of_range ds i) as Hi.
    pose proof (index_out_of_range ds j) as Hj.
    destruct (index ds i) as [a|], (index ds j) as [b|].
    + split; [by intros [? ?] |]. intros Hout.
      assert (Some a = None ∨ Some b = None) as [? | ?]
        by (rewrite Hi, Hj; lia); done.
    + split; [intros _ | by eexists]. destruct Hj as [Hj _]. specialize (Hj eq_refl). lia.
    + split; [intros _ | by eexists]. destruct Hi as [Hi _]. specialize (Hi eq_refl). lia.
    + split; [intros _ | by eexists]. destruct Hi as [Hi _]. specialize (Hi eq_refl). lia.
  - intros i j [a ->]%index_inRange [b ->]%index_inRange. by eexists.
Qed.

(** X14. The rendering of a slice: [StringSlice] gives, place by place,
    the device name of each disk; [String] of the empty slice is empty,
    that of two slices in a row is their renderings with a blank between
    them, and splitting the rendering of a slice at the blanks gives the
    device names back when no name holds a blank. *)
Theorem String_rendering (ds : DiskSlice) :
  length (StringSlice ds) = Len ds
  ∧ (∀ (i : nat) k, ds !! i = Some k →
       StringSlice ds !! i = Some ("/dev/" +:+ Name k))
  ∧ String' [] = EmptyString
  ∧ (∀ ds2, ds ≠ [] → ds2 ≠ [] →
       String' (ds ++ ds2) = String' ds +:+ " " +:+ String' ds2)
  ∧ (ds ≠ [] → Forall (λ k, notions.without notions.space (Name k)) ds →
     gostrings.Split (String' ds) notions.space = StringSlice ds).
Proof.
  split; [apply length_map |].
  split; [by intros i k Hk; rewrite StringSlice_lookup, Hk |].
  split; [done |]. split.
  - intros ds2 H1 H2. unfold String', StringSlice. rewrite map_app.
    apply Join_app; by destruct ds, ds2.
  - intros Hne Hall. unfold String'.
    apply (Split_Join (StringSlice ds) notions.space).
    + by destruct ds.
    + unfold StringSlice. induction Hall as [|k ds Hk _ IH]; [done |].
      constructor; [by apply DeviceName_without_space |].
      destruct ds; [constructor | by apply IH].
Qed.

Lemma String_rendering_witness :
  gostrings.Split (String' [mkDisk "sda" 1; mkDisk "sdb" 2; mkDisk "sdc" 3])
    notions.space
  = ["/dev/sda"; "/dev/sdb"; "/dev/sdc"]%string.
Proof.
  refine (proj2 (proj2 (proj2 (proj2
    (String_rendering [mkDisk "sda" 1; mkDisk "sdb" 2; mkDisk "sdc" 3])))) _ _).
  - discriminate.
  - repeat constructor.
Defined.

End slice_properties.

Lemma Less_strict_weak_order_witness :
  blockdevice.Less [blockdevice.mkDisk "sda" 100; blockdevice.mkDisk "sdb" 50] 0 1
  = Returns false
  ∧ ∃ msg,
      blockdevice.Less [blockdevice.mkDisk "sda" 100; blockdevice.mkDisk "sdb" 50]
        (-1) 0
      = Panics msg.
Proof.
  destruct (Less_strict_weak_order
              [blockdevice.mkDisk "sda" 100; blockdevice.mkDisk "sdb" 50])
    as (_ & Hasym & _ & _ & Hpanic & _).
  split; [exact (Hasym 1%Z 0%Z eq_refl) |].
  apply Hpanic. left. reflexivity.
Defined.

(** ** The output of the tool, again *)

Section output_facts.
Import blockdevice lines.

Lemma parseLines_nonBlank ls attrs :
  parseLines (notions.nonBlank ls) attrs = parseLines ls attrs.
Proof.
  revert attrs. induction ls as [|line ls IH]; intros attrs; [done |].
  unfold notions.nonBlank in *. simpl.
  destruct (String.eqb_spec line EmptyString) as [-> | Hne]; simpl.
  - apply IH.
  - destruct (parseLine attrs line); simpl; [apply IH | done].
Qed.

Lemma IndexByte_app_none s t c :
  gostrings.IndexByte s c = None → gostrings.IndexByte t c = None →
  gostrings.IndexByte (s +:+ t) c = None.
Proof.
  intros Hs Ht. induction s as [|a s IH]; rewrite ?append_cons, ?append_nil; [done |].
  simpl in *. destruct (Ascii.eqb a c); [done |].
  destruct (gostrings.IndexByte s c); [done |]. by rewrite IH.
Qed.

(** A line made of a key, the separator and a value splits into the key
    and the value, whatever separators the value holds. *)
Lemma line_parts key value :
  notions.without equals key →
  keyOf (key +:+ String equals value) = key
  ∧ valueOf (key +:+ String equals value) = value
  ∧ wellFormedLine (key +:+ String equals value) = true
  ∧ String.eqb (key +:+ String equals value) EmptyString = false.
Proof.
  intros Hkey. unfold keyOf, valueOf, wellFormedLine, hasSeparator.
  rewrite (IndexByte_append _ _ _ Hkey).
  split; [apply upto_append |]. split.
  - change (String equals value) with (String equals EmptyString +:+ value).
    rewrite <- append_assoc.
    replace (S (String.length key))
      with (String.length (key +:+ String equals EmptyString))
      by (rewrite length_append; simpl; lia).
    apply from_append.
  - split; [apply orb_true_r |]. apply eqb_false, append_nonempty. discriminate.
Qed.

Lemma hasKey_line key key' value :
  notions.without equals key →
  hasKey key' (key +:+ String equals value) = String.eqb key key'.
Proof.
  intros Hkey. unfold hasKey.
  destruct (line_parts key value Hkey) as (-> & _ & _ & ->). done.
Qed.

Lemma line_without_LF key value :
  notions.without LF key → notions.without LF value →
  notions.without LF (key +:+ String equals value).
Proof.
  intros Hkey Hvalue. apply IndexByte_app_none; [done |].
  unfold notions.without in *. simpl. by rewrite Hvalue.
Qed.

Lemma exported_lines attrs :
  notions.without LF (UUID attrs) → notions.without LF (Type' attrs) →
  notions.without LF (Label attrs) →
  gostrings.Split (notions.exported attrs) LF
  = [attributeUUIDKey +:+ String equals (UUID attrs);
     attributeTypeKey +:+ String equals (Type' attrs);
     attributeLabelKey +:+ String equals (Label attrs);
     EmptyString].
Proof.
  intros Hu Ht Hl.
  assert (notions.exported attrs
          = (attributeUUIDKey +:+ String equals (UUID attrs))
            +:+ String LF ((attributeTypeKey +:+ String equals (Type' attrs))
            +:+ String LF ((attributeLabelKey +:+ String equals (Label attrs))
            +:+ String LF EmptyString))) as ->.
  { unfold notions.exported.
    by rewrite !append_assoc, !append_cons, !append_nil. }
  by rewrite !Split_append by (by apply line_without_LF).
Qed.

End output_facts.

Section output_properties.
Import blockdevice lines.

(** X15. Empty lines count for nothing, wherever they are and however
    many: two outputs with the same lines that are not empty give the
    same result, be it a record or a panic. *)
Theorem GetAttributes_blank_lines (bd : Disk) (output1 output2 : string) :
  notions.nonBlank (gostrings.Split output1 LF)
  = notions.nonBlank (gostrings.Split output2 LF) →
  GetAttributes (answers output1) bd = GetAttributes (answers output2) bd.
Proof.
  intros Hsame. rewrite !GetAttributes_answers.
  rewrite <- (parseLines_nonBlank (gostrings.Split output1 LF)).
  rewrite <- (parseLines_nonBlank (gostrings.Split output2 LF)).
  by rewrite Hsame.
Qed.

Lemma GetAttributes_blank_lines_witness :
  GetAttributes
    (answers (fixture.line EmptyString +:+ fixture.line "UUID=u"
              +:+ fixture.line EmptyString +:+ fixture.line "TYPE=ext4"))
    (mkDisk "sda" 0)
  = GetAttributes (answers (fixture.line "UUID=u" +:+ "TYPE=ext4")) (mkDisk "sda" 0).
Proof.
  exact (GetAttributes_blank_lines (mkDisk "sda" 0) _ _ eq_refl).
Defined.

(** X16. A record written in the export format of the tool is read back
    as it was: each line is split at its first separator only, so a
    value may hold separators; it may not hold a newline. *)
Theorem GetAttributes_exported (bd : Disk) (attrs : Attributes) :
  notions.without LF (UUID attrs) → notions.without LF (Type' attrs) →
  notions.without LF (Label attrs) →
  GetAttributes (answers (notions.exported attrs)) bd = Returns (Some attrs, None).
Proof.
  intros Hu Ht Hl. rewrite GetAttributes_answers, (exported_lines attrs Hu Ht Hl).
  assert (∀ key value, notions.without equals key →
            wellFormedLine (key +:+ String equals value) = true) as Hwf
    by (intros key value Hkey; by destruct (line_parts key value Hkey) as (_ & _ & ? & _)).
  assert (∀ key value, notions.without equals key →
            valueOf (key +:+ String equals value) = value) as Hval
    by (intros key value Hkey; by destruct (line_parts key value Hkey) as (_ & ? & _)).
  rewrite parseLines_collected
    by (unfold wellFormed; cbn [forallb]; rewrite !Hwf by reflexivity; reflexivity).
  unfold collected. cbn [reported].
  rewrite !hasKey_line by reflexivity. rewrite !Hval by reflexivity.
  destruct attrs as [u t l]. reflexivity.
Qed.

Lemma GetAttributes_exported_witness :
  GetAttributes (answers (fixture.line "UUID=a=b" +:+ fixture.line "TYPE="
                          +:+ fixture.line "LABEL=my disk"))
    (mkDisk "sda" 0)
  = Returns (Some (mkAttributes "a=b" EmptyString "my disk"), None).
Proof.
  exact (GetAttributes_exported (mkDisk "sda" 0)
           (mkAttributes "a=b" EmptyString "my disk") eq_refl eq_refl eq_refl).
Defined.

(** X17. [GetAttributes] runs the tool once, as blkid -o export on the
    device name of the disk. An error of the run wins over its output:
    the result is no record and that error in context, of the same kind,
    and the output is not parsed (a malformed output does not panic
    then). Without an error the result is a record and no error, or a
    panic; a record never comes with an error, and no record never comes
    without one. *)
Theorem GetAttributes_outcomes (run : list string → string * option error)
    (bd : Disk) :
  (∀ output err, run (notions.commandLine bd) = (output, Some err) →
     GetAttributes run bd = Returns (None, Some (Wrap err "failed to exec blkid"))
     ∧ taxonomy.kindOf (Wrap err "failed to exec blkid") = taxonomy.kindOf err)
  ∧ (∀ output, run (notions.commandLine bd) = (output, None) →
       GetAttributes run bd
       = if wellFormed (gostrings.Split output LF)
         then Returns (Some (collected zeroAttributes (gostrings.Split output LF)), None)
         else Panics outOfRange)
  ∧ (∀ attrs err, GetAttributes run bd ≠ Returns (Some attrs, Some err))
  ∧ GetAttributes run bd ≠ Returns (None, None).
Proof.
  unfold GetAttributes, notions.commandLine.
  change (DeviceName bd) with ("/dev/" +:+ Name bd).
  destruct (run _) as [output [err|]].
  - split; [by intros ? ? [= <- <-] |]. split; [done |]. by split.
  - split; [done |].
    assert (parseLines (gostrings.Split output LF) zeroAttributes
            = if wellFormed (gostrings.Split output LF)
              then Returns (collected zeroAttributes (gostrings.Split output LF))
              else Panics outOfRange) as ->.
    { destruct (wellFormed _) eqn:Hwf;
        [by apply parseLines_collected | by apply parseLines_malformed]. }
    split; [intros ? [= <-]; by destruct (wellFormed _) |].
    destruct (wellFormed _); by split.
Qed.

Lemma GetAttributes_outcomes_witness :
  GetAttributes samples.toolMissing (mkDisk "sda" 0)
  = Returns (None, Some (Wrap (EExec "exec: blkid: executable file not found in $PATH")
                           "failed to exec blkid")).
Proof.
  exact (proj1 (proj1 (GetAttributes_outcomes samples.toolMissing (mkDisk "sda" 0))
                  _ _ eq_refl)).
Defined.

End output_properties.

(** ** The two listings *)

Section listings.
Import registry.

Lemma NewDevice_NewDisk fs path d :
  block.NewDevice fs path = (Some d, None) →
  blockdevice.NewDisk fs path = (Some (notions.diskOf d), None).
Proof.
  unfold block.NewDevice, blockdevice.NewDisk, block.sysfsBlockRoot,
    blockdevice.sysfsBlockRoot.
  destruct (goos.IsNotExist _); [done |].
  destruct (goos.ReadFile fs _) as [content [e|]]; [done |].
  destruct (strconv.ParseUint _) as [s [e|]]; [done |].
  destruct (block.discoverDeviceType fs _) as [typ [e|]]; [done |].
  by intros [= <-].
Qed.

(** X18. The listing of disks is the listing of devices without the
    types: when [ListDevices] returns devices, [NewDiskSlice] returns
    their disks, in the same order. *)
Theorem NewDiskSlice_of_ListDevices (fs : goos.FS) (ds : list block.Device) :
  block.ListDevices fs = Returns (Some ds, None) →
  blockdevice.NewDiskSlice fs = Returns (Some (map notions.diskOf ds), None)
  ∧ blockdevice.Len (map notions.diskOf ds) = length ds.
Proof.
  unfold block.ListDevices, blockdevice.NewDiskSlice, block.sysfsBlockRoot,
    blockdevice.sysfsBlockRoot.
  destruct (goos.Open fs _) as [e|]; [done |].
  destruct (goos.Readdirnames fs _) as [names [e|]]; [done |].
  intros Hall%NewDevicesFromPaths_inv. split; [| apply length_map].
  apply (disk_loop_all fs _ _ []).
  induction Hall as [|p d names ds Hp _ IH]; constructor; [| done].
  by apply NewDevice_NewDisk.
Qed.

Lemma NewDiskSlice_of_ListDevices_witness :
  blockdevice.NewDiskSlice fixture.host
  = Returns (Some [blockdevice.mkDisk "sda" 512000; blockdevice.mkDisk "md0" 1048576;
                   blockdevice.mkDisk "dm-1" 0; blockdevice.mkDisk "loop0" 4096],
             None).
Proof.
  exact (proj1 (NewDiskSlice_of_ListDevices fixture.host
           [block.mkDevice "sda" 512000 block.TypeDisk;
            block.mkDevice "md0" 1048576 block.TypeRAID;
            block.mkDevice "dm-1" 0 block.TypeDeviceMapper;
            block.mkDevice "loop0" 4096 block.TypeUnknown] eq_refl)).
Defined.

End listings.
